(** * Verification of the two utilities of the dotfiles repository

    - [bin/regex-escape.py]: the stdin line escaper;
    - [config/zed/diff-settings.py]: the settings diff
      ([parse_jsonc], [find_orphaned], [main]).

    Python values are embedded shallowly: a [str] is its list of Unicode
    code points, a JSON document is the tree [json.loads] builds, a [dict]
    is the list of its items in insertion order, and a call that may raise
    returns a [result]. *)

From Stdlib Require Import ZArith NArith List Bool String Ascii Lia.
From Stdlib Require Import DecimalString.
Import ListNotations.

Local Open Scope Z_scope.

(** ** Python strings *)

(** A character is its code point, a [str] the list of its characters. *)
Definition char : Type := N.
Definition str : Type := list char.

(** Reads an ASCII literal of this file as a Python [str]. *)
Fixpoint u (s : string) : str :=
  match s with
  | EmptyString => []
  | String c s' => N_of_ascii c :: u s'
  end.

Definition char_eqb (a b : char) : bool := N.eqb a b.

Fixpoint str_eqb (a b : str) : bool :=
  match a, b with
  | [], [] => true
  | x :: a', y :: b' => char_eqb x y && str_eqb a' b'
  | _, _ => false
  end.

(** [str.isspace] on one character, which is also what [\s] matches in a
    [str] pattern and what [str.rstrip()] removes: the code points CPython
    lists in [_PyUnicode_IsWhitespace]. *)
Definition is_space (c : char) : bool :=
  (((9 <=? c) && (c <=? 13)) || ((28 <=? c) && (c <=? 32))
   || (c =? 133) || (c =? 160) || (c =? 5760)
   || ((8192 <=? c) && (c <=? 8202))
   || (c =? 8232) || (c =? 8233) || (c =? 8239) || (c =? 8287)
   || (c =? 12288))%N.

(** [needle in haystack] on two [str]: substring search. *)
Fixpoint starts_with (p s : str) : bool :=
  match p, s with
  | [], _ => true
  | x :: p', y :: s' => char_eqb x y && starts_with p' s'
  | _ :: _, [] => false
  end.

Fixpoint str_contains (needle hay : str) : bool :=
  starts_with needle hay ||
  match hay with
  | [] => false
  | _ :: hay' => str_contains needle hay'
  end.

(** ** Exceptions *)

(** The exceptions the model follows: the [TypeError] of [in] and the
    [JSONDecodeError] of [json.loads].  What the interpreter and the file
    system raise besides them ([RecursionError] on a document nested
    about a thousand deep, [ValueError] on an integer of more than 4300
    digits, [UnicodeDecodeError] and [OSError] from [read_text]) is
    outside the model, and so no property below says that these two are
    the only exceptions of the code.

    [Exhausted] is not an exception of Python: the decoder below counts
    its recursive calls down from a budget, and [Exhausted] marks a budget
    that ran out.  [json_loads] gives a budget that never does
    ([json_loads_budget]). *)
Inductive exn : Type :=
| TypeError
| JSONDecodeError
| Exhausted.

Inductive result (A : Type) : Type :=
| Ok (a : A)
| Raise (e : exn).
Arguments Ok {A} a.
Arguments Raise {A} e.

Definition bind {A B : Type} (r : result A) (k : A -> result B) : result B :=
  match r with
  | Ok a => k a
  | Raise e => Raise e
  end.

Notation "x <- r ;; k" := (bind r (fun x => k))
  (at level 61, r at next level, right associativity).

(** ** JSON documents as [json.loads] builds them *)

(** A Python [float]: not-a-number, an infinity, or the finite value
    [m * 2^e] with its sign ([-0.0] is a float of its own). *)
Inductive pyfloat : Type :=
| FNan
| FInf (negative : bool)
| FFin (negative : bool) (m : N) (e : Z).

(** The integer [m] of a finite float with its sign. *)
Definition signed (negative : bool) (m : N) : Z :=
  if negative then - Z.of_N m else Z.of_N m.

#[local] Unset Elimination Schemes.
Inductive json : Type :=
| JNull
| JBool (b : bool)
| JInt (n : Z)
| JFloat (f : pyfloat)
| JStr (s : str)
| JArr (elems : list json)
| JObj (items : list (str * json)).
#[local] Set Elimination Schemes.

(** A [dict] with [str] keys: its items in insertion order. *)
Definition dict : Type := list (str * json).

(** [d.get(key)] *)
Fixpoint dict_get (key : str) (d : dict) : option json :=
  match d with
  | [] => None
  | (k, v) :: d' => if str_eqb key k then Some v else dict_get key d'
  end.

(** [key in d] *)
Definition dict_mem (key : str) (d : dict) : bool :=
  match dict_get key d with
  | Some _ => true
  | None => false
  end.

(** [d[key] = value]: an existing key keeps its position, a new one goes
    last. *)
Fixpoint dict_set (d : dict) (key : str) (value : json) : dict :=
  match d with
  | [] => [(key, value)]
  | (k, v) :: d' =>
      if str_eqb key k then (k, value) :: d'
      else (k, v) :: dict_set d' key value
  end.

Definition keys (d : dict) : list str := map fst d.

(** ** Python equality on these values *)

(** [bool] is a subclass of [int]: [True == 1] and [False == 0]. *)
Definition int_of_bool (b : bool) : Z := if b then 1 else 0.

(** [n == f] for an [int] and a [float] compares the exact values. *)
Definition int_float_eqb (n : Z) (f : pyfloat) : bool :=
  match f with
  | FFin s m e =>
      if 0 <=? e then n =? signed s m * 2 ^ e
      else n * 2 ^ (- e) =? signed s m
  | _ => false
  end.

(** Two floats.  Every NaN that [json.loads] returns is the one object
    [json.decoder.NaN], and [in] as well as the comparison of lists and of
    dicts test identity before [==]: a NaN therefore matches a NaN
    wherever this program compares values. *)
Definition float_eqb (f g : pyfloat) : bool :=
  match f, g with
  | FNan, FNan => true
  | FInf a, FInf b => Bool.eqb a b
  | FFin s1 m1 e1, FFin s2 m2 e2 =>
      let e := Z.min e1 e2 in
      signed s1 m1 * 2 ^ (e1 - e) =? signed s2 m2 * 2 ^ (e2 - e)
  | _, _ => false
  end.

(** [a is b or a == b], as [PyObject_RichCompareBool] decides it. *)
Fixpoint py_eq (a b : json) {struct a} : bool :=
  match a, b with
  | JNull, JNull => true
  | JBool x, JBool y => Bool.eqb x y
  | JBool x, JInt n => int_of_bool x =? n
  | JBool x, JFloat f => int_float_eqb (int_of_bool x) f
  | JInt n, JBool y => n =? int_of_bool y
  | JInt n, JInt m => n =? m
  | JInt n, JFloat f => int_float_eqb n f
  | JFloat f, JBool y => int_float_eqb (int_of_bool y) f
  | JFloat f, JInt m => int_float_eqb m f
  | JFloat f, JFloat g => float_eqb f g
  | JStr s, JStr t => str_eqb s t
  | JArr xs, JArr ys =>
      (fix go (xs ys : list json) {struct xs} : bool :=
         match xs, ys with
         | [], [] => true
         | x :: xs', y :: ys' => py_eq x y && go xs' ys'
         | _, _ => false
         end) xs ys
  | JObj d1, JObj d2 =>
      Nat.eqb (List.length d1) (List.length d2) &&
      (fix go (d : dict) {struct d} : bool :=
         match d with
         | [] => true
         | (k, v) :: d' =>
             match dict_get k d2 with
             | Some w => py_eq v w
             | None => false
             end && go d'
         end) d1
  | _, _ => false
  end.

(** [elem in container].  A list is searched with [py_eq]; a [str] accepts
    only a [str] on the left and searches a substring; a dict hashes the
    element, which a list or a dict refuses, and looks it up among its
    keys; anything else is not iterable. *)
Definition py_in (elem container : json) : result bool :=
  match container with
  | JArr ys => Ok (existsb (py_eq elem) ys)
  | JStr t =>
      match elem with
      | JStr s => Ok (str_contains s t)
      | _ => Raise TypeError
      end
  | JObj d =>
      match elem with
      | JArr _ | JObj _ => Raise TypeError
      | JStr s => Ok (dict_mem s d)
      | _ => Ok false
      end
  | _ => Raise TypeError
  end.

(** ** [config/zed/diff-settings.py]: [find_orphaned] *)

(** [key in x if isinstance(x, dict) else False] *)
Definition key_in (key : str) (x : json) : bool :=
  match x with
  | JObj d => dict_mem key d
  | _ => false
  end.

(** [x.get(key, default) if isinstance(x, dict) else default] *)
Definition get_or (key : str) (default : json) (x : json) : json :=
  match x with
  | JObj d =>
      match dict_get key d with
      | Some v => v
      | None => default
      end
  | _ => default
  end.

(** [[elem for elem in value if elem not in expected]] *)
Fixpoint not_in (value : list json) (expected : json) : result (list json) :=
  match value with
  | [] => Ok []
  | elem :: value' =>
      found <- py_in elem expected ;;
      rest <- not_in value' expected ;;
      Ok (if found then rest else elem :: rest)
  end.

(** The truth value of a dict or of a list: it is not empty. *)
Definition truthy {A : Type} (l : list A) : bool :=
  match l with
  | [] => false
  | _ :: _ => true
  end.

(** [find_orphaned(settings, base, local_settings)].  The inner loop is
    the [for key, value in settings.items()] with the dict [orphaned] it
    fills. *)
Fixpoint find_orphaned (settings base local_settings : json) {struct settings}
  : result dict :=
  match settings with
  | JObj items =>
      (fix loop (items : dict) (orphaned : dict) {struct items} : result dict :=
         match items with
         | [] => Ok orphaned
         | (key, value) :: items' =>
             let in_base := key_in key base in
             let in_local := key_in key local_settings in
             if negb in_base && negb in_local then
               loop items' (dict_set orphaned key value)
             else
               match value with
               | JObj _ =>
                   let base_val := get_or key (JObj []) base in
                   let local_val := get_or key (JObj []) local_settings in
                   nested <- find_orphaned value base_val local_val ;;
                   loop items'
                     (if truthy nested then dict_set orphaned key (JObj nested)
                      else orphaned)
               | JArr elems =>
                   let base_arr := get_or key (JArr []) base in
                   let local_arr := get_or key (JArr []) local_settings in
                   let expected := if in_local then local_arr else base_arr in
                   orphaned_elements <- not_in elems expected ;;
                   loop items'
                     (if truthy orphaned_elements
                      then dict_set orphaned key (JArr orphaned_elements)
                      else orphaned)
               | _ => loop items' orphaned
               end
         end) items []
  | _ => Ok []
  end.

(** ** [bin/regex-escape.py] *)

(** [str.rstrip()]: drops the trailing run of whitespace. *)
Fixpoint rstrip (s : str) : str :=
  match s with
  | [] => []
  | c :: s' =>
      match rstrip s' with
      | [] => if is_space c then [] else [c]
      | r => c :: r
      end
  end.

(** The keys of [re._special_chars_map], the bytes of
    [b'()[]{}?*+-|^$\\.&~# \t\n\r\v\f']. *)
Definition special_chars : list char :=
  [40; 41; 91; 93; 123; 125; 63; 42; 43; 45; 124; 94; 36; 92; 46; 38; 126;
   35; 32; 9; 10; 13; 11; 12]%N.

Definition is_special (c : char) : bool := existsb (char_eqb c) special_chars.

Definition backslash : char := 92%N.
Definition slash : char := 47%N.
Definition newline : char := 10%N.

(** [re.escape(pattern)] for a [str]: [pattern.translate(_special_chars_map)],
    every special character gets a backslash in front (Python 3.7 and
    later; the slash is not one of them, which is why the script adds its
    own backslash). *)
Fixpoint re_escape (pattern : str) : str :=
  match pattern with
  | [] => []
  | c :: p' =>
      if is_special c then backslash :: c :: re_escape p'
      else c :: re_escape p'
  end.

(** [s.replace(old, new)] for a one-character [old]. *)
Fixpoint replace_char (old : char) (new : str) (s : str) : str :=
  match s with
  | [] => []
  | c :: s' =>
      if char_eqb c old then new ++ replace_char old new s'
      else c :: replace_char old new s'
  end.

(** The body of the loop: what is printed for one [line] of stdin, without
    the newline [print] adds. *)
Definition escape_line (line : str) : str :=
  let escaped := re_escape (rstrip line) in
  replace_char slash [backslash; slash] escaped.

(** The whole script: [lines] is what iterating over stdin yields, the
    result is what has been written to stdout at the end. *)
Fixpoint escaper (lines : list str) : str :=
  match lines with
  | [] => []
  | line :: lines' => escape_line line ++ [newline] ++ escaper lines'
  end.

(** *** How [re] reads a pattern made of literals

    [re] compiles a pattern with [sre_parse]: a backslash followed by a
    character that is neither an ASCII letter nor an ASCII digit stands for
    that character, a character of [sre_parse.SPECIAL_CHARS] on its own is
    an operator, and every other character stands for itself.  [re_literal]
    returns the text a pattern stands for when the pattern uses no
    operator, no class and no group reference, and [None] otherwise: such
    a pattern matches the occurrences of that text and nothing else.  An
    opening brace that starts no repetition is read by [re] as itself;
    [re_literal] refuses it all the same, which errs on the safe side. *)

Definition is_ascii_alnum (c : char) : bool :=
  (((48 <=? c) && (c <=? 57)) || ((65 <=? c) && (c <=? 90))
   || ((97 <=? c) && (c <=? 122)))%N.

(** [sre_parse.SPECIAL_CHARS]: dot, backslash, opening bracket, opening
    brace, both parentheses, star, plus, question mark, caret, dollar and
    bar. *)
Definition re_operators : list char :=
  [46; 92; 91; 123; 40; 41; 42; 43; 63; 94; 36; 124]%N.

Definition is_operator (c : char) : bool := existsb (char_eqb c) re_operators.

Fixpoint re_literal (pattern : str) : option str :=
  match pattern with
  | [] => Some []
  | c :: p' =>
      if char_eqb c backslash then
        match p' with
        | [] => None
        | d :: p'' =>
            if is_ascii_alnum d then None
            else option_map (cons d) (re_literal p'')
        end
      else if is_operator c then None
      else option_map (cons c) (re_literal p')
  end.

(** ** [config/zed/diff-settings.py]: [parse_jsonc] *)

(** [re.sub] of the pattern [//[^\n]*] by the empty string.  The scan is
    either outside a match or inside one, where it drops characters up to
    the next newline. *)
Fixpoint sub_comments (in_match : bool) (text : str) : str :=
  match text with
  | [] => []
  | c :: t' =>
      if in_match then
        if char_eqb c newline then c :: sub_comments false t'
        else sub_comments true t'
      else
        match t' with
        | d :: _ =>
            if char_eqb c slash && char_eqb d slash then sub_comments true t'
            else c :: sub_comments false t'
        | [] => [c]
        end
  end.

Definition comma : char := 44%N.

Definition is_closer (c : char) : bool := ((c =? 125) || (c =? 93))%N.

(** The length of the match of [\s*[}\]]] at the start of [text], if it
    matches there. *)
Fixpoint match_closer (text : str) : option nat :=
  match text with
  | [] => None
  | c :: t' =>
      if is_space c then option_map S (match_closer t')
      else if is_closer c then Some 1%nat
      else None
  end.

(** [re.sub] of the pattern [,(\s*[}\]])] by its group 1.  [group1] counts
    the characters of the current match that are still to be copied as
    group 1; the scan looks for the next match only after them. *)
Fixpoint sub_commas (group1 : nat) (text : str) : str :=
  match text with
  | [] => []
  | c :: t' =>
      match group1 with
      | S n => c :: sub_commas n t'
      | O =>
          if char_eqb c comma then
            match match_closer t' with
            | Some n => sub_commas n t'
            | None => c :: sub_commas O t'
            end
          else c :: sub_commas O t'
      end
  end.

(** The text [parse_jsonc] hands to [json.loads]. *)
Definition clean_jsonc (text : str) : str :=
  sub_commas O (sub_comments false text).

(** *** [json.loads]

    The decoder of the standard library, as [json.decoder] and
    [json.scanner] define it: what [scan_once], [JSONObject], [JSONArray]
    and [scanstring] accept and build.  Every function takes the text that
    is left to read and returns the value with the text after it. *)

Definition dquote : char := 34%N.

Definition is_json_ws (c : char) : bool :=
  ((c =? 32) || (c =? 9) || (c =? 10) || (c =? 13))%N.

Fixpoint skip_ws (s : str) : str :=
  match s with
  | c :: s' => if is_json_ws c then skip_ws s' else s
  | [] => []
  end.

Definition is_digit (c : char) : bool := ((48 <=? c) && (c <=? 57))%N.

Definition hex_digit (c : char) : option N :=
  if is_digit c then Some (c - 48)%N
  else if ((97 <=? c) && (c <=? 102))%N then Some (c - 87)%N
  else if ((65 <=? c) && (c <=? 70))%N then Some (c - 55)%N
  else None.

(** The four hexadecimal digits of a [\uXXXX] escape. *)
Definition hex4 (a b c d : char) : option N :=
  match hex_digit a, hex_digit b, hex_digit c, hex_digit d with
  | Some x, Some y, Some z, Some w => Some (((x * 16 + y) * 16 + z) * 16 + w)%N
  | _, _, _, _ => None
  end.

(** [json.decoder.BACKSLASH] *)
Definition unescape (esc : char) : option char :=
  (if esc =? 34 then Some 34
   else if esc =? 92 then Some 92
   else if esc =? 47 then Some 47
   else if esc =? 98 then Some 8
   else if esc =? 102 then Some 12
   else if esc =? 110 then Some 10
   else if esc =? 114 then Some 13
   else if esc =? 116 then Some 9
   else None)%N.

Definition is_high_surrogate (c : N) : bool := ((55296 <=? c) && (c <=? 56319))%N.
Definition is_low_surrogate (c : N) : bool := ((56320 <=? c) && (c <=? 57343))%N.

(** [scanstring(s, end, strict=True)], from the character after the opening
    quote. *)
Fixpoint scanstring (s : str) : result (str * str) :=
  match s with
  | [] => Raise JSONDecodeError
  | c :: s1 =>
      if char_eqb c dquote then Ok ([], s1)
      else if char_eqb c backslash then
        match s1 with
        | [] => Raise JSONDecodeError
        | esc :: s2 =>
            if (esc =? 117)%N then
              match s2 with
              | h1 :: h2 :: h3 :: h4 :: s3 =>
                  match hex4 h1 h2 h3 h4 with
                  | None => Raise JSONDecodeError
                  | Some uni =>
                      let alone := r <- scanstring s3 ;;
                                   Ok (uni :: fst r, snd r) in
                      if is_high_surrogate uni then
                        match s3 with
                        | b :: l :: k1 :: k2 :: k3 :: k4 :: s4 =>
                            if char_eqb b backslash && (l =? 117)%N then
                              match hex4 k1 k2 k3 k4 with
                              | None => Raise JSONDecodeError
                              | Some uni2 =>
                                  if is_low_surrogate uni2 then
                                    r <- scanstring s4 ;;
                                    Ok ((65536 + ((uni - 55296) * 1024
                                                  + (uni2 - 56320)))%N
                                          :: fst r, snd r)
                                  else alone
                              end
                            else alone
                        | _ => alone
                        end
                      else alone
                  end
              | _ => Raise JSONDecodeError
              end
            else
              match unescape esc with
              | None => Raise JSONDecodeError
              | Some ch => r <- scanstring s2 ;; Ok (ch :: fst r, snd r)
              end
        end
      else if (c <? 32)%N then Raise JSONDecodeError
      else r <- scanstring s1 ;; Ok (c :: fst r, snd r)
  end.

(** The longest run of ASCII digits at the start of [s], and the rest. *)
Fixpoint span_digits (s : str) : str * str :=
  match s with
  | c :: s' =>
      if is_digit c then let r := span_digits s' in (c :: fst r, snd r)
      else ([], s)
  | [] => ([], [])
  end.

(** The number a run of decimal digits writes. *)
Definition digits_value (ds : str) : Z :=
  fold_left (fun acc c => 10 * acc + (Z.of_N c - 48)) ds 0.

(** [float(text)]: the binary64 value nearest to [digits * 10^e10], ties
    to even, an infinity beyond the largest finite value.  The result is
    written in one way for each float: zero as [0 * 2^0], any other value
    with [m] below [2^53] and, above the smallest exponent, not below
    [2^52]. *)
Definition round_half_even (a b : Z) : Z :=
  let q := a / b in
  let r := a mod b in
  if 2 * r <? b then q
  else if b <? 2 * r then q + 1
  else if Z.even q then q else q + 1.

Definition float_of_decimal (negative : bool) (digits e10 : Z) : pyfloat :=
  if digits =? 0 then FFin negative 0 0
  else
    let num := if 0 <=? e10 then digits * 10 ^ e10 else digits in
    let den := if 0 <=? e10 then 1 else 10 ^ (- e10) in
    let t := Z.log2 num - Z.log2 den in
    let below := if 0 <=? t then num <? den * 2 ^ t
                 else num * 2 ^ (- t) <? den in
    let k := Z.max ((if below then t - 1 else t) - 52) (-1074) in
    let q := if 0 <=? k then round_half_even num (den * 2 ^ k)
             else round_half_even (num * 2 ^ (- k)) den in
    if (0 <=? k) && (2 ^ 1024 <=? q * 2 ^ k) then FInf negative
    else if q =? 0 then FFin negative 0 0
    else if q =? 2 ^ 53 then FFin negative (Z.to_N (2 ^ 52)) (k + 1)
    else FFin negative (Z.to_N q) k.

(** [NUMBER_RE] matched at the start of [s]: an optional minus sign, then
    a zero or a digit from 1 to 9 with any digits after it; optionally a
    dot with at least one digit; optionally [e] or [E], an optional sign
    and at least one digit.  The value is the one [scan_once] builds from
    the groups: an [int] when there is neither a fraction nor an exponent,
    else a [float]. *)
Definition match_number (s : str) : option (json * str) :=
  let negative := match s with c :: _ => (c =? 45)%N | [] => false end in
  let s1 := if negative then tl s else s in
  match s1 with
  | [] => None
  | c :: s2 =>
      if negb (is_digit c) then None
      else
        let int_part := if (c =? 48)%N then ([c], s2)
                        else let r := span_digits s2 in (c :: fst r, snd r) in
        let s3 := snd int_part in
        let frac :=
          match s3 with
          | p :: d :: _ =>
              if (p =? 46)%N && is_digit d then span_digits (tl s3)
              else ([], s3)
          | _ => ([], s3)
          end in
        let s4 := snd frac in
        let exp_at (neg : bool) (rest : str) : option (Z * str) :=
          match rest with
          | d :: _ =>
              if is_digit d then
                let r := span_digits rest in
                Some (if neg then - digits_value (fst r)
                      else digits_value (fst r), snd r)
              else None
          | [] => None
          end in
        let exp :=
          match s4 with
          | e :: s5 =>
              if (e =? 101)%N || (e =? 69)%N then
                match s5 with
                | sg :: s6 =>
                    if (sg =? 45)%N then exp_at true s6
                    else if (sg =? 43)%N then exp_at false s6
                    else exp_at false s5
                | [] => None
                end
              else None
          | [] => None
          end in
        let sign (n : Z) := if negative then - n else n in
        match fst frac, exp with
        | [], None => Some (JInt (sign (digits_value (fst int_part))), s4)
        | fr, None =>
            Some (JFloat (float_of_decimal negative
                            (digits_value (fst int_part ++ fr))
                            (- Z.of_nat (List.length fr))), s4)
        | fr, Some (e, s7) =>
            Some (JFloat (float_of_decimal negative
                            (digits_value (fst int_part ++ fr))
                            (e - Z.of_nat (List.length fr))), s7)
        end
  end.

(** [scan_once], with [JSONObject] ([object_pairs], from the character
    after the quote that opens a key, [pairs] being the items read so far)
    and [JSONArray] ([array_items], from the first character of a value).
    The dict of an object is built pair by pair, so that a key met again
    takes the new value where it stands, as in [dict(pairs)]. *)
Fixpoint scan_once (budget : nat) (s : str) {struct budget}
  : result (json * str) :=
  match budget with
  | O => Raise Exhausted
  | S budget' =>
      match s with
      | [] => Raise JSONDecodeError
      | c :: s1 =>
          if char_eqb c dquote then
            r <- scanstring s1 ;; Ok (JStr (fst r), snd r)
          else if (c =? 123)%N then
            match skip_ws s1 with
            | d :: s2 =>
                if (d =? 125)%N then Ok (JObj [], s2)
                else if char_eqb d dquote then object_pairs budget' s2 []
                else Raise JSONDecodeError
            | [] => Raise JSONDecodeError
            end
          else if (c =? 91)%N then
            match skip_ws s1 with
            | d :: s2 =>
                if (d =? 93)%N then Ok (JArr [], s2)
                else array_items budget' (d :: s2) []
            | [] => Raise JSONDecodeError
            end
          else if starts_with (u "null") s then Ok (JNull, skipn 4 s)
          else if starts_with (u "true") s then Ok (JBool true, skipn 4 s)
          else if starts_with (u "false") s then Ok (JBool false, skipn 5 s)
          else
            match match_number s with
            | Some r => Ok r
            | None =>
                if starts_with (u "NaN") s then Ok (JFloat FNan, skipn 3 s)
                else if starts_with (u "Infinity") s
                then Ok (JFloat (FInf false), skipn 8 s)
                else if starts_with (u "-Infinity") s
                then Ok (JFloat (FInf true), skipn 9 s)
                else Raise JSONDecodeError
            end
      end
  end

with object_pairs (budget : nat) (s : str) (pairs : dict) {struct budget}
  : result (json * str) :=
  match budget with
  | O => Raise Exhausted
  | S budget' =>
      k <- scanstring s ;;
      match skip_ws (snd k) with
      | c :: s1 =>
          if negb (c =? 58)%N then Raise JSONDecodeError
          else
            v <- scan_once budget' (skip_ws s1) ;;
            let pairs' := dict_set pairs (fst k) (fst v) in
            match skip_ws (snd v) with
            | d :: s2 =>
                if (d =? 125)%N then Ok (JObj pairs', s2)
                else if negb (char_eqb d comma) then Raise JSONDecodeError
                else
                  match skip_ws s2 with
                  | q :: s3 =>
                      if char_eqb q dquote then object_pairs budget' s3 pairs'
                      else Raise JSONDecodeError
                  | [] => Raise JSONDecodeError
                  end
            | [] => Raise JSONDecodeError
            end
      | [] => Raise JSONDecodeError
      end
  end

with array_items (budget : nat) (s : str) (values : list json) {struct budget}
  : result (json * str) :=
  match budget with
  | O => Raise Exhausted
  | S budget' =>
      v <- scan_once budget' s ;;
      let values' := values ++ [fst v] in
      match skip_ws (snd v) with
      | d :: s1 =>
          if (d =? 93)%N then Ok (JArr values', s1)
          else if negb (char_eqb d comma) then Raise JSONDecodeError
          else array_items budget' (skip_ws s1) values'
      | [] => Raise JSONDecodeError
      end
  end.

(** [json.loads(text)] for a [str]: no byte order mark, one value between
    optional whitespace, nothing after it.  The limits of the interpreter
    (the depth of recursion, the number of digits [int] converts) are not
    part of the model. *)
Definition json_loads (text : str) : result json :=
  match text with
  | 65279%N :: _ => Raise JSONDecodeError
  | _ =>
      let s := skip_ws text in
      r <- scan_once (2 * List.length s + 1) s ;;
      match skip_ws (snd r) with
      | [] => Ok (fst r)
      | _ :: _ => Raise JSONDecodeError
      end
  end.

(** *** [json.dumps(obj, indent=2)]

    The encoder of the standard library with its defaults
    ([ensure_ascii=True], separators [,] and [: ], keys in insertion
    order). *)

Definition hex_char (d : N) : char := (if d <? 10 then 48 + d else 87 + d)%N.

(** [{:04x}] of a number below 65536, after a backslash and a [u]. *)
Definition escape_u (n : N) : str :=
  [backslash; 117%N; hex_char (n / 4096 mod 16); hex_char (n / 256 mod 16);
   hex_char (n / 16 mod 16); hex_char (n mod 16)]%N.

(** What [py_encode_basestring_ascii] writes for one character. *)
Definition encode_char (c : char) : str :=
  (if c =? 92 then [92; 92]
   else if c =? 34 then [92; 34]
   else if c =? 8 then [92; 98]
   else if c =? 12 then [92; 102]
   else if c =? 10 then [92; 110]
   else if c =? 13 then [92; 114]
   else if c =? 9 then [92; 116]
   else if (32 <=? c) && (c <=? 126) then [c]
   else if c <? 65536 then escape_u c
   else escape_u (55296 + ((c - 65536) / 1024) mod 1024)
        ++ escape_u (56320 + (c - 65536) mod 1024))%N.

Definition encode_str (s : str) : str :=
  [dquote] ++ flat_map encode_char s ++ [dquote].

(** [int.__repr__] *)
Definition int_repr (n : Z) : str := u (NilZero.string_of_int (Z.to_int n)).

(** [level] times the indent of two spaces, after a newline. *)
Definition newline_indent (level : nat) : str :=
  newline :: repeat 32%N (2 * level).

(** [s.join(parts)] *)
Fixpoint join (sep : str) (parts : list str) : str :=
  match parts with
  | [] => []
  | [p] => p
  | p :: parts' => p ++ sep ++ join sep parts'
  end.

Section Dumps.

(** [float.__repr__] on a finite float, the shortest decimal text that
    reads back as the same float; it belongs to the interpreter. *)
Variable float_repr : pyfloat -> str.

Definition encode_float (f : pyfloat) : str :=
  match f with
  | FNan => u "NaN"
  | FInf false => u "Infinity"
  | FInf true => u "-Infinity"
  | FFin _ _ _ => float_repr f
  end.

(** [_iterencode(o, level)], joined. *)
Fixpoint encode (level : nat) (o : json) {struct o} : str :=
  match o with
  | JNull => u "null"
  | JBool true => u "true"
  | JBool false => u "false"
  | JInt n => int_repr n
  | JFloat f => encode_float f
  | JStr s => encode_str s
  | JArr [] => u "[]"
  | JArr elems =>
      u "[" ++ newline_indent (S level)
        ++ join (comma :: newline_indent (S level))
             ((fix each (l : list json) : list str :=
                 match l with
                 | [] => []
                 | x :: l' => encode (S level) x :: each l'
                 end) elems)
        ++ newline_indent level ++ u "]"
  | JObj [] => u "{}"
  | JObj items =>
      u "{" ++ newline_indent (S level)
        ++ join (comma :: newline_indent (S level))
             ((fix each (l : dict) : list str :=
                 match l with
                 | [] => []
                 | (k, v) :: l' =>
                     (encode_str k ++ u ": " ++ encode (S level) v) :: each l'
                 end) items)
        ++ newline_indent level ++ u "}"
  end.

Definition json_dumps (o : json) : str := encode O o.

End Dumps.

(** ** [config/zed/diff-settings.py]: [parse_jsonc] and [main] *)

(** How a run of the script ends: it exits with a status, having written
    [stdout] and [stderr]; or an exception reaches the top, where the
    interpreter writes a traceback to stderr and exits with status 1. *)
Inductive outcome : Type :=
| Exit (status : Z) (stdout stderr : str)
| Uncaught (e : exn) (stdout : str).

Definition exit_status (o : outcome) : Z :=
  match o with
  | Exit status _ _ => status
  | Uncaught _ _ => 1
  end.

Definition stdout_of (o : outcome) : str :=
  match o with
  | Exit _ out _ => out
  | Uncaught _ out => out
  end.

Section Script.

(** [pathlib.Path]: the paths, [dir / name] and [str(path)]. *)
Variable path : Type.
Variable joinpath : path -> str -> path.
Variable path_str : path -> str.

Variable float_repr : pyfloat -> str.

(** The files: the text [read_text] returns for a path that exists.  A
    path that exists and cannot be read as text (a directory, a file that
    is not UTF-8) is outside the model. *)
Definition files : Type := path -> option str.

Definition parse_jsonc (fs : files) (p : path) : result json :=
  match fs p with
  | None => Ok (JObj [])
  | Some text => json_loads (clean_jsonc text)
  end.

(** [print(text)] *)
Definition print (text : str) : str := text ++ [newline].

(** [main()], for the directory of the script. *)
Definition main (fs : files) (script_dir : path) : outcome :=
  let settings_path := joinpath script_dir (u "settings.json") in
  match fs settings_path with
  | None =>
      Exit 1 []
        (print (u "Error: " ++ path_str settings_path ++ u " not found"))
  | Some _ =>
      let run :=
        base <- parse_jsonc fs (joinpath script_dir (u "settings.base.jsonc")) ;;
        local_settings <-
          parse_jsonc fs (joinpath script_dir (u "settings.local.jsonc")) ;;
        settings <- parse_jsonc fs settings_path ;;
        orphaned <- find_orphaned settings base local_settings ;;
        Ok (if truthy orphaned
            then print (json_dumps float_repr (JObj orphaned))
            else print (u "No orphaned settings found."))
      in
      match run with
      | Ok out => Exit 0 out []
      | Raise e => Uncaught e []
      end
  end.

End Script.

(** ** Definitions used to state the properties *)

(** The invariant of a Python dict: no key twice, in the dict and in every
    dict below it. *)
Fixpoint distinct (ks : list str) : bool :=
  match ks with
  | [] => true
  | k :: ks' => negb (existsb (str_eqb k) ks') && distinct ks'
  end.

Fixpoint wf_json (j : json) : bool :=
  match j with
  | JArr elems =>
      (fix all (l : list json) : bool :=
         match l with
         | [] => true
         | x :: l' => wf_json x && all l'
         end) elems
  | JObj items =>
      distinct (keys items) &&
      (fix all (l : dict) : bool :=
         match l with
         | [] => true
         | (_, v) :: l' => wf_json v && all l'
         end) items
  | _ => true
  end.

Definition is_mapping (j : json) : bool :=
  match j with
  | JObj _ => true
  | _ => false
  end.

(** The loop of [find_orphaned] on its own, from any point of the
    iteration: [items] are the items still to visit and [orphaned] the
    dict filled so far. *)
Fixpoint orphan_loop (base local_settings : json) (items orphaned : dict)
  : result dict :=
  match items with
  | [] => Ok orphaned
  | (key, value) :: items' =>
      let in_base := key_in key base in
      let in_local := key_in key local_settings in
      if negb in_base && negb in_local then
        orphan_loop base local_settings items' (dict_set orphaned key value)
      else
        match value with
        | JObj _ =>
            nested <- find_orphaned value (get_or key (JObj []) base)
                        (get_or key (JObj []) local_settings) ;;
            orphan_loop base local_settings items'
              (if truthy nested then dict_set orphaned key (JObj nested)
               else orphaned)
        | JArr elems =>
            orphaned_elements <-
              not_in elems (if in_local
                            then get_or key (JArr []) local_settings
                            else get_or key (JArr []) base) ;;
            orphan_loop base local_settings items'
              (if truthy orphaned_elements
               then dict_set orphaned key (JArr orphaned_elements)
               else orphaned)
        | _ => orphan_loop base local_settings items' orphaned
        end
  end.

(** What one turn of the loop stores under its key, if anything. *)
Definition entry (base local_settings : json) (key : str) (value : json)
  : result (option json) :=
  let in_base := key_in key base in
  let in_local := key_in key local_settings in
  if negb in_base && negb in_local then Ok (Some value)
  else
    match value with
    | JObj _ =>
        nested <- find_orphaned value (get_or key (JObj []) base)
                    (get_or key (JObj []) local_settings) ;;
        Ok (if truthy nested then Some (JObj nested) else None)
    | JArr elems =>
        orphaned_elements <-
          not_in elems (if in_local
                        then get_or key (JArr []) local_settings
                        else get_or key (JArr []) base) ;;
        Ok (if truthy orphaned_elements
            then Some (JArr orphaned_elements) else None)
    | _ => Ok None
    end.

(** A key of [settings] is explained when [base] or [local] has it. *)
Definition explained (key : str) (base local_settings : json) : bool :=
  key_in key base || key_in key local_settings.

(** Every explained sequence of [settings], at any depth, is governed by
    a sequence: the value [find_orphaned] searches for its elements is a
    list.  Settings merged from [base] and [local] are of this kind. *)
Definition governed_entry (governed : json -> json -> json -> bool)
  (base local_settings : json) (key : str) (value : json) : bool :=
  if negb (key_in key base) && negb (key_in key local_settings) then true
  else
    match value with
    | JObj _ =>
        governed value (get_or key (JObj []) base)
          (get_or key (JObj []) local_settings)
    | JArr _ =>
        match (if key_in key local_settings
               then get_or key (JArr []) local_settings
               else get_or key (JArr []) base) with
        | JArr _ => true
        | _ => false
        end
    | _ => true
    end.

Fixpoint sequences_governed (settings base local_settings : json)
  {struct settings} : bool :=
  match settings with
  | JObj items =>
      (fix all (l : dict) : bool :=
         match l with
         | [] => true
         | (key, value) :: l' =>
             governed_entry sequences_governed base local_settings key value
             && all l'
         end) items
  | _ => true
  end.

(** The sub-mapping of [x] at [key]: the empty mapping when [x] has no
    such key, or when what it has there is not a mapping. *)
Definition sub_mapping (key : str) (x : json) : json :=
  match x with
  | JObj d =>
      match dict_get key d with
      | Some (JObj m) => JObj m
      | _ => JObj []
      end
  | _ => JObj []
  end.

(** The value that governs a sequence at [key]: the one of [local] when
    [local] has the key, else the one of [base]. *)
Definition value_at (key : str) (x : json) : option json :=
  match x with
  | JObj d => dict_get key d
  | _ => None
  end.

Definition governing (key : str) (base local_settings : json) : option json :=
  if key_in key local_settings then value_at key local_settings
  else value_at key base.

(** The elements of [value] that equal no element of [expected], in their
    order. *)
Definition unmatched (value expected : list json) : list json :=
  filter (fun elem => negb (existsb (py_eq elem) expected)) value.

(** What the escaper writes for one character of the stripped line: a
    slash gets a backslash, any other character its [re.escape]. *)
Definition escape_char (c : char) : str :=
  if char_eqb c slash then [backslash; slash] else re_escape [c].

(** The number of occurrences of [c] in [s]. *)
Definition count_char (c : char) (s : str) : nat :=
  List.length (filter (char_eqb c) s).

(** The lines of a text: what stands between its newlines. *)
Fixpoint lines (text : str) : list str :=
  match text with
  | [] => [[]]
  | c :: t' =>
      if char_eqb c newline then [] :: lines t'
      else
        match lines t' with
        | l :: ls => (c :: l) :: ls
        | [] => [[c]]
        end
  end.

(** A line without its comment: what stands before its first two
    slashes in a row. *)
Fixpoint before_comment (line : str) : str :=
  match line with
  | [] => []
  | c :: l' =>
      match l' with
      | d :: _ =>
          if char_eqb c slash && char_eqb d slash then []
          else c :: before_comment l'
      | [] => [c]
      end
  end.

(** The text with every line comment removed up to the end of its line. *)
Definition remove_line_comments (text : str) : str :=
  join [newline] (map before_comment (lines text)).

(** Whether [text] starts with a closing brace or bracket, up to
    whitespace. *)
Fixpoint closes (text : str) : bool :=
  match text with
  | [] => false
  | c :: t' => if is_space c then closes t' else is_closer c
  end.

(** The text without the commas that come just before, up to whitespace,
    a closing brace or bracket. *)
Fixpoint remove_trailing_commas (text : str) : str :=
  match text with
  | [] => []
  | c :: t' =>
      if char_eqb c comma && closes t' then remove_trailing_commas t'
      else c :: remove_trailing_commas t'
  end.

(** *** A concrete directory, for examples

    Paths are their text, [dir / name] puts a slash between the two, and
    the directory [/z] holds at most the three files of the script. *)
Definition posix_join (dir name : str) : str := dir ++ u "/" ++ name.

Definition zed_dir (base local_settings settings : option str) : str -> option str :=
  fun p =>
    if str_eqb p (u "/z/settings.json") then settings
    else if str_eqb p (u "/z/settings.base.jsonc") then base
    else if str_eqb p (u "/z/settings.local.jsonc") then local_settings
    else None.

(** A [float.__repr__] for the floats of the examples. *)
Definition demo_float_repr (f : pyfloat) : str :=
  match f with
  | FFin false 29 (-1) => u "14.5"
  | _ => u "0.0"
  end.

(** The text [{ "a": 1, // comment] followed by a newline and [ }]. *)
Definition jsonc_example : str :=
  u "{ " ++ [dquote] ++ u "a" ++ [dquote] ++ u ": 1, // comment"
    ++ [newline] ++ u " }".

(** A literal between double quotes. *)
Definition quoted (s : string) : str := [dquote] ++ u s ++ [dquote].

(** The files of the [editor] example, the base one with a comment and a
    trailing comma, and the report the run prints for them. *)
Definition editor_settings_text : str :=
  u "{" ++ quoted "editor" ++ u ": {" ++ quoted "fontSize" ++ u ": 14, "
    ++ quoted "tabSize" ++ u ": 2}}".

Definition editor_base_text : str :=
  u "{" ++ quoted "editor" ++ u ": {" ++ quoted "fontSize"
    ++ u ": 14,}, // base" ++ [newline] ++ u "}".

Definition editor_report : str :=
  u "{" ++ [newline]
    ++ u "  " ++ quoted "editor" ++ u ": {" ++ [newline]
    ++ u "    " ++ quoted "tabSize" ++ u ": 2" ++ [newline]
    ++ u "  }" ++ [newline]
    ++ u "}" ++ [newline].

(** Files that parse, with a sequence in [settings.json] where the base
    has a number. *)
Definition mismatch_settings_text : str := u "{" ++ quoted "a" ++ u ": [1]}".
Definition mismatch_base_text : str := u "{" ++ quoted "a" ++ u ": 5}".

(** *** Strict JSON

    The JSON of the specification: the grammar of RFC 8259, which has no
    [NaN], [Infinity] or [-Infinity].  The strict decoder is the one of
    [json.loads] without these three constants (what [json.loads] does
    with a [parse_constant] that raises). *)
Fixpoint strict_scan_once (budget : nat) (s : str) {struct budget}
  : result (json * str) :=
  match budget with
  | O => Raise Exhausted
  | S budget' =>
      match s with
      | [] => Raise JSONDecodeError
      | c :: s1 =>
          if char_eqb c dquote then
            r <- scanstring s1 ;; Ok (JStr (fst r), snd r)
          else if (c =? 123)%N then
            match skip_ws s1 with
            | d :: s2 =>
                if (d =? 125)%N then Ok (JObj [], s2)
                else if char_eqb d dquote
                     then strict_object_pairs budget' s2 []
                else Raise JSONDecodeError
            | [] => Raise JSONDecodeError
            end
          else if (c =? 91)%N then
            match skip_ws s1 with
            | d :: s2 =>
                if (d =? 93)%N then Ok (JArr [], s2)
                else strict_array_items budget' (d :: s2) []
            | [] => Raise JSONDecodeError
            end
          else if starts_with (u "null") s then Ok (JNull, skipn 4 s)
          else if starts_with (u "true") s then Ok (JBool true, skipn 4 s)
          else if starts_with (u "false") s then Ok (JBool false, skipn 5 s)
          else
            match match_number s with
            | Some r => Ok r
            | None => Raise JSONDecodeError
            end
      end
  end

with strict_object_pairs (budget : nat) (s : str) (pairs : dict)
  {struct budget} : result (json * str) :=
  match budget with
  | O => Raise Exhausted
  | S budget' =>
      k <- scanstring s ;;
      match skip_ws (snd k) with
      | c :: s1 =>
          if negb (c =? 58)%N then Raise JSONDecodeError
          else
            v <- strict_scan_once budget' (skip_ws s1) ;;
            let pairs' := dict_set pairs (fst k) (fst v) in
            match skip_ws (snd v) with
            | d :: s2 =>
                if (d =? 125)%N then Ok (JObj pairs', s2)
                else if negb (char_eqb d comma) then Raise JSONDecodeError
                else
                  match skip_ws s2 with
                  | q :: s3 =>
                      if char_eqb q dquote
                      then strict_object_pairs budget' s3 pairs'
                      else Raise JSONDecodeError
                  | [] => Raise JSONDecodeError
                  end
            | [] => Raise JSONDecodeError
            end
      | [] => Raise JSONDecodeError
      end
  end

with strict_array_items (budget : nat) (s : str) (values : list json)
  {struct budget} : result (json * str) :=
  match budget with
  | O => Raise Exhausted
  | S budget' =>
      v <- strict_scan_once budget' s ;;
      let values' := values ++ [fst v] in
      match skip_ws (snd v) with
      | d :: s1 =>
          if (d =? 93)%N then Ok (JArr values', s1)
          else if negb (char_eqb d comma) then Raise JSONDecodeError
          else strict_array_items budget' (skip_ws s1) values'
      | [] => Raise JSONDecodeError
      end
  end.

Definition strict_json_loads (text : str) : result json :=
  match text with
  | 65279%N :: _ => Raise JSONDecodeError
  | _ =>
      let s := skip_ws text in
      r <- strict_scan_once (2 * List.length s + 1) s ;;
      match skip_ws (snd r) with
      | [] => Ok (fst r)
      | _ :: _ => Raise JSONDecodeError
      end
  end.

(** A file with [NaN] for a value: not a JSON text. *)
Definition nan_text : str := u "{" ++ quoted "a" ++ u ": NaN}".

(** *** Further definitions for the properties of the code *)

(** [a] is [b] with some elements left out, the others in their order. *)
Inductive subseq {A : Type} : list A -> list A -> Prop :=
| subseq_nil : subseq [] []
| subseq_keep (x : A) (a b : list A) : subseq a b -> subseq (x :: a) (x :: b)
| subseq_skip (x : A) (a b : list A) : subseq a b -> subseq a (x :: b).

(** The items the loop of [find_orphaned] stores, in the order of the
    turns that store them. *)
Fixpoint entries (base local_settings : json) (items : dict) : result dict :=
  match items with
  | [] => Ok []
  | (key, value) :: items' =>
      e <- entry base local_settings key value ;;
      es <- entries base local_settings items' ;;
      Ok (match e with
          | Some x => (key, x) :: es
          | None => es
          end)
  end.

(** A value that is neither a mapping nor a sequence. *)
Definition is_scalar (j : json) : bool :=
  match j with
  | JArr _ | JObj _ => false
  | _ => true
  end.

(** A mapping or a sequence that is not empty. *)
Definition nonempty_container (j : json) : bool :=
  match j with
  | JArr elems => truthy elems
  | JObj items => truthy items
  | _ => false
  end.

(** Two slashes in a row somewhere in the text. *)
Definition has_comment (text : str) : bool := str_contains [slash; slash] text.

(** A comma somewhere in the text with, after it and up to whitespace, a
    closing brace or bracket. *)
Fixpoint has_trailing_comma (text : str) : bool :=
  match text with
  | [] => false
  | c :: t' => (char_eqb c comma && closes t') || has_trailing_comma t'
  end.

(** The characters the escaper puts a backslash in front of. *)
Definition is_escaped (c : char) : bool := is_special c || char_eqb c slash.

(** Reading a text from the left, a backslash taking the next character
    with it: no slash stands on its own and no backslash is left without
    its character.  This is what a text needs to sit between the slashes
    of a substitution command. *)
Fixpoint delimiter_safe (s : str) : bool :=
  match s with
  | [] => true
  | c :: s' =>
      if char_eqb c backslash then
        match s' with
        | [] => false
        | _ :: s'' => delimiter_safe s''
        end
      else if char_eqb c slash then false
      else delimiter_safe s'
  end.

(** A line as iterating over a text stream yields it: no newline, except
    for one at its end. *)
Definition stream_line (line : str) : Prop :=
  exists body, count_char newline body = 0%nat
               /\ (line = body \/ line = body ++ [newline]).

(** Two files that differ in the order of their keys and in the way
    their numbers are written, and hold equal documents. *)
Definition equal_settings_text : str :=
  u "{" ++ quoted "a" ++ u ": 2.0, " ++ quoted "b" ++ u ": [1, true]}".

Definition equal_base_text : str :=
  u "{" ++ quoted "b" ++ u ": [1.0, 1], " ++ quoted "a" ++ u ": 2} // base".

(** * Properties *)

(** ** Strings and dicts *)

Lemma str_eqb_refl (s : str) : str_eqb s s = true.
Proof.
  induction s as [|c s IH]; simpl; [reflexivity|].
  unfold char_eqb. rewrite N.eqb_refl. exact IH.
Qed.

Lemma str_eqb_eq (s t : str) : str_eqb s t = true <-> s = t.
Proof.
  split; [|intros ->; apply str_eqb_refl].
  revert t. induction s as [|c s IH]; intros [|d t]; simpl; try discriminate.
  - reflexivity.
  - unfold char_eqb. intros H. apply andb_true_iff in H as [Hc Hs].
    apply N.eqb_eq in Hc. subst d. f_equal. apply IH, Hs.
Qed.

Lemma str_eqb_sym (s t : str) : str_eqb s t = str_eqb t s.
Proof.
  destruct (str_eqb s t) eqn:E.
  - apply str_eqb_eq in E. subst. symmetry. apply str_eqb_refl.
  - destruct (str_eqb t s) eqn:E'; [|reflexivity].
    apply str_eqb_eq in E'. subst. rewrite str_eqb_refl in E. discriminate.
Qed.

Lemma dict_get_set_same (d : dict) (k : str) (v : json) :
  dict_get k (dict_set d k v) = Some v.
Proof.
  induction d as [|[k' v'] d IH]; simpl.
  - rewrite str_eqb_refl. reflexivity.
  - destruct (str_eqb k k') eqn:E; simpl; rewrite E; [reflexivity|exact IH].
Qed.

Lemma dict_get_set_other (d : dict) (k k' : str) (v : json) :
  str_eqb k k' = false ->
  dict_get k (dict_set d k' v) = dict_get k d.
Proof.
  intros Hne. induction d as [|[k0 v0] d IH]; simpl.
  - rewrite Hne. reflexivity.
  - destruct (str_eqb k' k0) eqn:E; simpl.
    + apply str_eqb_eq in E. subst k0. rewrite Hne. reflexivity.
    + rewrite IH. reflexivity.
Qed.

Lemma dict_get_absent (d : dict) (k : str) :
  existsb (str_eqb k) (keys d) = false -> dict_get k d = None.
Proof.
  induction d as [|[k' v'] d IH]; simpl; [reflexivity|].
  intros H. apply orb_false_iff in H as [H1 H2].
  rewrite H1. apply IH, H2.
Qed.

(** In a dict, every item is the one its key leads to. *)
Lemma dict_get_item (d : dict) (k : str) (v : json) :
  distinct (keys d) = true -> In (k, v) d -> dict_get k d = Some v.
Proof.
  induction d as [|[k' v'] d IH]; simpl; [intros _ []|].
  intros Hd [Heq|Hin].
  - inversion Heq; subst. rewrite str_eqb_refl. reflexivity.
  - apply andb_true_iff in Hd as [Hfresh Hd].
    destruct (str_eqb k k') eqn:E.
    + apply str_eqb_eq in E. subst k'.
      apply negb_true_iff in Hfresh.
      apply dict_get_absent in Hfresh.
      rewrite (IH Hd Hin) in Hfresh. discriminate.
    + apply IH; assumption.
Qed.

(** ** The loop of [find_orphaned] *)

Lemma find_orphaned_loop (items : dict) (base local_settings : json) :
  find_orphaned (JObj items) base local_settings
  = orphan_loop base local_settings items [].
Proof.
  simpl.
  match goal with
  | |- ?loop items [] = _ =>
      enough (H : forall orphaned,
                 loop items orphaned
                 = orphan_loop base local_settings items orphaned)
        by apply H
  end.
  induction items as [|[key value] items IH]; intros orphaned; simpl.
  - reflexivity.
  - destruct (negb (key_in key base) && negb (key_in key local_settings)).
    + apply IH.
    + destruct value; try apply IH.
      * destruct (not_in _ _); simpl; [apply IH|reflexivity].
      * destruct (find_orphaned (JObj items0) _ _); simpl;
          [apply IH|reflexivity].
Qed.

Lemma orphan_loop_step base local_settings key value items orphaned :
  orphan_loop base local_settings ((key, value) :: items) orphaned
  = e <- entry base local_settings key value ;;
    orphan_loop base local_settings items
      (match e with
       | Some x => dict_set orphaned key x
       | None => orphaned
       end).
Proof.
  unfold entry. simpl.
  destruct (negb (key_in key base) && negb (key_in key local_settings));
    [reflexivity|].
  destruct value; try reflexivity.
  - destruct (not_in _ _) as [o|]; simpl; [|reflexivity].
    destruct (truthy o); reflexivity.
  - destruct (find_orphaned (JObj items0) _ _) as [n|]; simpl; [|reflexivity].
    destruct (truthy n); reflexivity.
Qed.

(** What the loop leaves under every key: the entry of the key when the
    key is among the items visited, what was there before otherwise. *)
Lemma orphan_loop_get base local_settings items :
  forall orphaned r key,
    distinct (keys items) = true ->
    orphan_loop base local_settings items orphaned = Ok r ->
    match dict_get key items with
    | None => dict_get key r = dict_get key orphaned
    | Some v =>
        exists e, entry base local_settings key v = Ok e /\
                  dict_get key r = match e with
                                   | Some x => Some x
                                   | None => dict_get key orphaned
                                   end
    end.
Proof.
  induction items as [|[k v] items IH]; intros orphaned r key Hd Hr.
  - simpl in *. inversion Hr. reflexivity.
  - rewrite orphan_loop_step in Hr.
    destruct (entry base local_settings k v) as [e|] eqn:He;
      simpl in Hr; [|discriminate].
    simpl in Hd. apply andb_true_iff in Hd as [Hfresh Hd].
    apply negb_true_iff in Hfresh.
    specialize (IH _ r key Hd Hr).
    simpl. destruct (str_eqb key k) eqn:E.
    + apply str_eqb_eq in E. subst k.
      rewrite (dict_get_absent _ _ Hfresh) in IH.
      exists e. split; [exact He|].
      rewrite IH. destruct e; [apply dict_get_set_same|reflexivity].
    + destruct (dict_get key items) as [v'|].
      * destruct IH as [e' [He' Hg]]. exists e'. split; [exact He'|].
        rewrite Hg. destruct e'; [reflexivity|].
        destruct e; [apply dict_get_set_other; exact E|reflexivity].
      * rewrite IH. destruct e; [apply dict_get_set_other; exact E|reflexivity].
Qed.

Lemma find_orphaned_get items base local_settings r key :
  distinct (keys items) = true ->
  find_orphaned (JObj items) base local_settings = Ok r ->
  match dict_get key items with
  | None => dict_get key r = None
  | Some v => exists e, entry base local_settings key v = Ok e /\
                        dict_get key r = e
  end.
Proof.
  intros Hd Hr. rewrite find_orphaned_loop in Hr.
  pose proof (orphan_loop_get _ _ _ _ _ key Hd Hr) as H.
  destruct (dict_get key items); [|exact H].
  destruct H as [e [He Hg]]. exists e. split; [exact He|].
  rewrite Hg. destruct e; reflexivity.
Qed.

(** ** Induction on JSON documents and reflexivity of equality *)

Lemma json_induction (P : json -> Prop) :
  P JNull ->
  (forall b, P (JBool b)) ->
  (forall n, P (JInt n)) ->
  (forall f, P (JFloat f)) ->
  (forall s, P (JStr s)) ->
  (forall elems, Forall P elems -> P (JArr elems)) ->
  (forall items, Forall (fun kv => P (snd kv)) items -> P (JObj items)) ->
  forall j, P j.
Proof.
  intros Hnull Hbool Hint Hfloat Hstr Harr Hobj.
  fix IH 1. intros [| b | n | f | s | elems | items].
  - exact Hnull.
  - apply Hbool.
  - apply Hint.
  - apply Hfloat.
  - apply Hstr.
  - apply Harr. induction elems as [|x elems IHl]; constructor.
    + apply IH.
    + exact IHl.
  - apply Hobj. induction items as [|[k v] items IHl]; constructor.
    + apply IH.
    + exact IHl.
Qed.

Lemma wf_json_arr (elems : list json) :
  wf_json (JArr elems) = true -> Forall (fun x => wf_json x = true) elems.
Proof.
  induction elems as [|x elems IH]; intros H; constructor;
    simpl in H; apply andb_true_iff in H as [Hx Hl].
  - exact Hx.
  - apply IH. exact Hl.
Qed.

Lemma wf_json_obj (items : dict) :
  wf_json (JObj items) = true ->
  distinct (keys items) = true
  /\ Forall (fun kv => wf_json (snd kv) = true) items.
Proof.
  intros H. simpl in H. apply andb_true_iff in H as [Hd Hall].
  split; [exact Hd|]. clear Hd.
  induction items as [|[k v] items IH]; constructor;
    apply andb_true_iff in Hall as [Hv Hl].
  - exact Hv.
  - apply IH. exact Hl.
Qed.

Lemma float_eqb_refl (f : pyfloat) : float_eqb f f = true.
Proof.
  destruct f as [|b|s m e]; simpl.
  - reflexivity.
  - apply Bool.eqb_reflx.
  - apply Z.eqb_refl.
Qed.

(** A value equals itself. *)
Lemma py_eq_refl (a : json) : wf_json a = true -> py_eq a a = true.
Proof.
  induction a as [| b | n | f | s | elems IH | items IH] using json_induction;
    intros Hwf; simpl.
  - reflexivity.
  - apply Bool.eqb_reflx.
  - apply Z.eqb_refl.
  - apply float_eqb_refl.
  - apply str_eqb_refl.
  - apply wf_json_arr in Hwf.
    induction elems as [|x elems IHl]; [reflexivity|].
    inversion IH; subst. inversion Hwf; subst.
    apply andb_true_iff. split; [auto|]. apply IHl; assumption.
  - apply wf_json_obj in Hwf as [Hd Hwf].
    rewrite Nat.eqb_refl. simpl.
    assert (Hsub : incl items items) by apply incl_refl.
    revert Hsub. generalize items at 1 4 as part.
    induction part as [|[k v] part IHp]; intros Hsub; [reflexivity|].
    assert (Hin : In (k, v) items) by (apply Hsub; left; reflexivity).
    rewrite (dict_get_item _ _ _ Hd Hin).
    apply andb_true_iff. split.
    + rewrite Forall_forall in IH, Hwf.
      apply (IH _ Hin), (Hwf _ Hin).
    + apply IHp. intros kv Hkv. apply Hsub. right. exact Hkv.
Qed.

Lemma unmatched_self (part elems : list json) :
  Forall (fun x => wf_json x = true) elems ->
  incl part elems ->
  unmatched part elems = [].
Proof.
  intros Hwf. induction part as [|x part IH]; intros Hsub; [reflexivity|].
  unfold unmatched in *. simpl.
  assert (Hin : In x elems) by (apply Hsub; left; reflexivity).
  replace (existsb (py_eq x) elems) with true.
  - simpl. apply IH. intros y Hy. apply Hsub. right. exact Hy.
  - symmetry. apply existsb_exists. exists x. split; [exact Hin|].
    apply py_eq_refl. rewrite Forall_forall in Hwf. apply Hwf, Hin.
Qed.

(** ** When [find_orphaned] returns *)

Lemma not_in_list (value expected : list json) :
  not_in value (JArr expected) = Ok (unmatched value expected).
Proof.
  induction value as [|elem value IH]; simpl; [reflexivity|].
  rewrite IH. simpl.
  destruct (existsb (py_eq elem) expected); reflexivity.
Qed.

Lemma entry_returns base local_settings key value :
  (forall b l, sequences_governed value b l = true ->
               exists r, find_orphaned value b l = Ok r) ->
  governed_entry sequences_governed base local_settings key value = true ->
  exists e, entry base local_settings key value = Ok e.
Proof.
  intros IH. unfold governed_entry, entry.
  destruct (negb (key_in key base) && negb (key_in key local_settings));
    [intros _; eexists; reflexivity|].
  destruct value; try (intros _; eexists; reflexivity).
  - destruct (if key_in key local_settings
              then get_or key (JArr []) local_settings
              else get_or key (JArr []) base); try discriminate.
    intros _. rewrite not_in_list. eexists. reflexivity.
  - intros H. destruct (IH _ _ H) as [r Hr]. rewrite Hr.
    eexists. reflexivity.
Qed.

(** On such inputs [find_orphaned] returns. *)
Lemma find_orphaned_returns (settings : json) :
  forall base local_settings,
    sequences_governed settings base local_settings = true ->
    exists r, find_orphaned settings base local_settings = Ok r.
Proof.
  induction settings as [| b | n | f | t | elems IH | items IH]
    using json_induction; intros base local_settings Hg;
    try (eexists; reflexivity).
  rewrite find_orphaned_loop. generalize (@nil (str * json)) as orphaned.
  simpl in Hg. induction items as [|[k v] items IHl]; intros orphaned.
  - eexists. reflexivity.
  - apply andb_true_iff in Hg as [Hkv Hrest].
    inversion IH as [|? ? Hv Hvs]; subst. cbn [snd] in Hv.
    rewrite orphan_loop_step.
    destruct (entry_returns _ _ _ _ Hv Hkv) as [e He]. rewrite He.
    simpl. apply IHl; assumption.
Qed.

(** ** Claims on [find_orphaned] *)

(** C1, as the code has it: whenever [find_orphaned] returns, a key of
    [settings] that neither [base] nor [local] has is in the result with
    the whole value [settings] gives it; [find_orphaned] of [{x: 5}],
    [{}] and [{}] is [{x: 5}]; and [find_orphaned] does return whenever
    every explained sequence of [settings] is governed by a sequence. *)
Theorem C1_unexplained_key_is_orphaned :
  (forall items base local_settings key value r,
      distinct (keys items) = true ->
      dict_get key items = Some value ->
      key_in key base = false ->
      key_in key local_settings = false ->
      find_orphaned (JObj items) base local_settings = Ok r ->
      dict_get key r = Some value)
  /\ find_orphaned (JObj [(u "x", JInt 5)]) (JObj []) (JObj [])
     = Ok [(u "x", JInt 5)]
  /\ (forall settings base local_settings,
         sequences_governed settings base local_settings = true ->
         exists r, find_orphaned settings base local_settings = Ok r).
Proof.
  split; [|split; [reflexivity|intros s b l; apply find_orphaned_returns]].
  intros items base local_settings key value r Hd Hget Hb Hl Hr.
  pose proof (find_orphaned_get _ _ _ _ key Hd Hr) as H.
  rewrite Hget in H. destruct H as [e [He Hg]].
  unfold entry in He. rewrite Hb, Hl in He. simpl in He.
  injection He as <-. exact Hg.
Qed.

Lemma C1_witness :
  dict_get (u "x")
    [(u "x", JArr [JInt 5]); (u "editor", JObj [(u "tabSize", JInt 2)])]
  = Some (JArr [JInt 5]).
Proof.
  apply (proj1 C1_unexplained_key_is_orphaned
           [(u "x", JArr [JInt 5]);
            (u "a", JInt 1);
            (u "editor", JObj [(u "fontSize", JInt 14); (u "tabSize", JInt 2)])]
           (JObj [(u "a", JInt 1); (u "editor", JObj [(u "fontSize", JInt 14)])])
           (JObj [(u "y", JNull)])
           (u "x") (JArr [JInt 5])); reflexivity.
Defined.

(** C1 as the specification words it fails where [find_orphaned] has no
    result: [x] is in neither [base] nor [local], and the diff raises
    [TypeError] on the sequence under [a], which [base] governs with a
    number. *)
Lemma C1_counterexample :
  dict_get (u "x") [(u "x", JInt 5); (u "a", JArr [JInt 1])] = Some (JInt 5)
  /\ key_in (u "x") (JObj [(u "a", JInt 5)]) = false
  /\ key_in (u "x") (JObj []) = false
  /\ find_orphaned (JObj [(u "x", JInt 5); (u "a", JArr [JInt 1])])
       (JObj [(u "a", JInt 5)]) (JObj [])
     = Raise TypeError.
Proof. repeat split. Qed.

(** A [base] or a [local] that is not a mapping counts as the empty
    mapping. *)
Lemma orphan_loop_base_not_mapping base local_settings items :
  is_mapping base = false ->
  forall orphaned,
    orphan_loop base local_settings items orphaned
    = orphan_loop (JObj []) local_settings items orphaned.
Proof.
  intros Hb. induction items as [|[k v] items IH]; intros orphaned.
  - reflexivity.
  - rewrite !orphan_loop_step. unfold entry.
    replace (key_in k base) with false by (destruct base; try reflexivity; discriminate).
    replace (get_or k (JObj []) base) with (JObj [])
      by (destruct base; try reflexivity; discriminate).
    replace (get_or k (JArr []) base) with (JArr [])
      by (destruct base; try reflexivity; discriminate).
    simpl. destruct (negb (key_in k local_settings)); simpl; [apply IH|].
    destruct v; try apply IH.
    + destruct (not_in _ _); [apply IH|reflexivity].
    + destruct (find_orphaned _ _ _); [apply IH|reflexivity].
Qed.

Lemma orphan_loop_local_not_mapping base local_settings items :
  is_mapping local_settings = false ->
  forall orphaned,
    orphan_loop base local_settings items orphaned
    = orphan_loop base (JObj []) items orphaned.
Proof.
  intros Hl. induction items as [|[k v] items IH]; intros orphaned.
  - reflexivity.
  - rewrite !orphan_loop_step. unfold entry.
    replace (key_in k local_settings) with false
      by (destruct local_settings; try reflexivity; discriminate).
    replace (get_or k (JObj []) local_settings) with (JObj [])
      by (destruct local_settings; try reflexivity; discriminate).
    simpl. destruct (negb (key_in k base)); simpl; [apply IH|].
    destruct v; try apply IH.
    + destruct (not_in _ _); [apply IH|reflexivity].
    + destruct (find_orphaned _ _ _); [apply IH|reflexivity].
Qed.

Lemma find_orphaned_not_mapping settings base local_settings :
  find_orphaned settings base local_settings
  = find_orphaned settings
      (if is_mapping base then base else JObj [])
      (if is_mapping local_settings then local_settings else JObj []).
Proof.
  destruct settings; try reflexivity.
  rewrite !find_orphaned_loop.
  destruct (is_mapping base) eqn:Hb, (is_mapping local_settings) eqn:Hl.
  - reflexivity.
  - apply orphan_loop_local_not_mapping, Hl.
  - apply orphan_loop_base_not_mapping, Hb.
  - rewrite (orphan_loop_base_not_mapping _ _ _ Hb).
    apply orphan_loop_local_not_mapping, Hl.
Qed.

Lemma sub_mapping_get_or key x :
  sub_mapping key x
  = if is_mapping (get_or key (JObj []) x) then get_or key (JObj []) x
    else JObj [].
Proof.
  destruct x; try reflexivity. simpl.
  destruct (dict_get key items) as [[]|]; reflexivity.
Qed.

(** C2, as the code has it: whenever [find_orphaned] returns, for an
    explained key whose value in [settings] is a mapping, the diff of
    that value against the sub-mappings of [base] and [local] at the key
    (the empty mapping where the key is absent or leads to something that
    is not a mapping) has returned too; the key is in the result exactly
    when that diff is not empty, and then leads to it.  The [editor]
    example of the specification gives [{editor: {tabSize: 2}}]. *)
Theorem C2_mapping_value_recursion :
  (forall items base local_settings key d r,
      distinct (keys items) = true ->
      dict_get key items = Some (JObj d) ->
      explained key base local_settings = true ->
      find_orphaned (JObj items) base local_settings = Ok r ->
      exists nested,
        find_orphaned (JObj d) (sub_mapping key base)
          (sub_mapping key local_settings) = Ok nested
        /\ dict_get key r
           = if truthy nested then Some (JObj nested) else None)
  /\ find_orphaned
       (JObj [(u "editor", JObj [(u "fontSize", JInt 14); (u "tabSize", JInt 2)])])
       (JObj [(u "editor", JObj [(u "fontSize", JInt 14)])])
       (JObj [])
     = Ok [(u "editor", JObj [(u "tabSize", JInt 2)])].
Proof.
  split; [|reflexivity].
  intros items base local_settings key d r Hd Hget Hex Hr.
  pose proof (find_orphaned_get _ _ _ _ key Hd Hr) as H.
  rewrite Hget in H. destruct H as [e [He Hg]].
  unfold entry in He. unfold explained in Hex.
  replace (negb (key_in key base) && negb (key_in key local_settings))
    with false in He
    by (destruct (key_in key base), (key_in key local_settings);
        try reflexivity; discriminate).
  rewrite find_orphaned_not_mapping, <- !sub_mapping_get_or in He.
  destruct (find_orphaned (JObj d) _ _) as [nested|]; simpl in He;
    [|discriminate].
  exists nested. split; [reflexivity|].
  injection He as <-. exact Hg.
Qed.

Lemma C2_witness :
  exists nested,
    find_orphaned (JObj [(u "tabSize", JInt 2)])
      (sub_mapping (u "editor") (JObj [(u "editor", JInt 3)]))
      (sub_mapping (u "editor") (JObj [(u "editor", JObj [(u "tabSize", JNull)])]))
    = Ok nested
    /\ dict_get (u "editor") [(u "x", JInt 1)]
       = if truthy nested then Some (JObj nested) else None.
Proof.
  apply (proj1 C2_mapping_value_recursion
           [(u "x", JInt 1); (u "editor", JObj [(u "tabSize", JInt 2)])]
           (JObj [(u "editor", JInt 3)])
           (JObj [(u "editor", JObj [(u "tabSize", JNull)])])
           (u "editor") [(u "tabSize", JInt 2)]); reflexivity.
Defined.

(** C2 as the specification words it fails where the recursive diff has
    no result: [e] is explained and holds a mapping, the diff of that
    mapping raises [TypeError], and so does the whole diff. *)
Lemma C2_counterexample :
  dict_get (u "e") [(u "e", JObj [(u "a", JArr [JInt 1])])]
  = Some (JObj [(u "a", JArr [JInt 1])])
  /\ explained (u "e") (JObj [(u "e", JObj [(u "a", JInt 5)])]) (JObj [])
     = true
  /\ find_orphaned (JObj [(u "a", JArr [JInt 1])])
       (sub_mapping (u "e") (JObj [(u "e", JObj [(u "a", JInt 5)])]))
       (sub_mapping (u "e") (JObj []))
     = Raise TypeError
  /\ find_orphaned (JObj [(u "e", JObj [(u "a", JArr [JInt 1])])])
       (JObj [(u "e", JObj [(u "a", JInt 5)])]) (JObj [])
     = Raise TypeError.
Proof. repeat split. Qed.

(** C3, as the code has it: for an explained key whose value in
    [settings] is a sequence and whose governing value (the one of [local]
    when [local] has the key, else the one of [base]) is a sequence too,
    the key is in the result exactly when some element of the sequence of
    [settings] equals no element of the governing one, and then leads to
    the list of those elements in their order.  The [exclude] example of
    the specification gives [{exclude: [c]}]. *)
Theorem C3_sequence_value_diff :
  (forall items base local_settings key elems expected r,
      distinct (keys items) = true ->
      dict_get key items = Some (JArr elems) ->
      explained key base local_settings = true ->
      governing key base local_settings = Some (JArr expected) ->
      find_orphaned (JObj items) base local_settings = Ok r ->
      dict_get key r
      = if truthy (unmatched elems expected)
        then Some (JArr (unmatched elems expected)) else None)
  /\ find_orphaned
       (JObj [(u "exclude", JArr [JStr (u "a"); JStr (u "b"); JStr (u "c")])])
       (JObj [(u "exclude",
               JArr [JStr (u "a"); JStr (u "b"); JStr (u "c"); JStr (u "d")])])
       (JObj [(u "exclude", JArr [JStr (u "a"); JStr (u "b")])])
     = Ok [(u "exclude", JArr [JStr (u "c")])].
Proof.
  split; [|reflexivity].
  intros items base local_settings key elems expected r Hd Hget Hex Hgov Hr.
  pose proof (find_orphaned_get _ _ _ _ key Hd Hr) as H.
  rewrite Hget in H. destruct H as [e [He Hg]].
  unfold entry in He. unfold explained in Hex.
  replace (negb (key_in key base) && negb (key_in key local_settings))
    with false in He
    by (destruct (key_in key base), (key_in key local_settings);
        try reflexivity; discriminate).
  assert (Hexp : (if key_in key local_settings
                  then get_or key (JArr []) local_settings
                  else get_or key (JArr []) base) = JArr expected).
  { unfold governing in Hgov.
    destruct (key_in key local_settings).
    - destruct local_settings; try discriminate. simpl in *.
      rewrite Hgov. reflexivity.
    - destruct base; try discriminate. simpl in *.
      rewrite Hgov. reflexivity. }
  rewrite Hexp, not_in_list in He. simpl in He.
  injection He as <-. exact Hg.
Qed.

Lemma C3_witness :
  dict_get (u "exclude")
    [(u "exclude", JArr [JInt 3; JInt 3])]
  = if truthy (unmatched [JInt 1; JInt 3; JBool true; JInt 3] [JBool true])
    then Some (JArr (unmatched [JInt 1; JInt 3; JBool true; JInt 3]
                       [JBool true]))
    else None.
Proof.
  apply (proj1 C3_sequence_value_diff
           [(u "exclude", JArr [JInt 1; JInt 3; JBool true; JInt 3])]
           (JObj [(u "exclude", JArr [JBool true])])
           (JObj [])
           (u "exclude")); reflexivity.
Defined.

(** C3 as the specification words it fails where the governing value is
    not a sequence: with a number there, [find_orphaned] raises
    [TypeError] and has no result; with a string there, it searches a
    substring, and reports nothing for [xy] although [xy] equals none of
    the characters [x], [y] and [z]. *)
Lemma C3_counterexample :
  (dict_get (u "a") [(u "a", JArr [JInt 1])] = Some (JArr [JInt 1])
   /\ explained (u "a") (JObj []) (JObj [(u "a", JInt 5)]) = true
   /\ governing (u "a") (JObj []) (JObj [(u "a", JInt 5)]) = Some (JInt 5)
   /\ find_orphaned (JObj [(u "a", JArr [JInt 1])]) (JObj [])
        (JObj [(u "a", JInt 5)]) = Raise TypeError)
  /\ (governing (u "a") (JObj []) (JObj [(u "a", JStr (u "xyz"))])
      = Some (JStr (u "xyz"))
      /\ unmatched [JStr (u "xy")] [JStr (u "x"); JStr (u "y"); JStr (u "z")]
         = [JStr (u "xy")]
      /\ find_orphaned (JObj [(u "a", JArr [JStr (u "xy")])]) (JObj [])
           (JObj [(u "a", JStr (u "xyz"))]) = Ok []).
Proof. repeat split. Qed.

(** C10: when [settings] is not a mapping, [find_orphaned] returns the
    empty mapping, whatever [base] and [local] are. *)
Theorem C10_not_a_mapping_gives_empty settings base local_settings :
  is_mapping settings = false ->
  find_orphaned settings base local_settings = Ok [].
Proof.
  destruct settings; intros H; try reflexivity. discriminate.
Qed.

Lemma C10_witness :
  find_orphaned (JArr [JObj [(u "x", JInt 5)]; JInt 1])
    (JStr (u "base")) (JArr [JNull]) = Ok [].
Proof.
  apply C10_not_a_mapping_gives_empty. reflexivity.
Defined.

Lemma orphan_loop_self (items part : dict) :
  distinct (keys items) = true ->
  Forall (fun kv => wf_json (snd kv) = true) items ->
  Forall (fun kv => wf_json (snd kv) = true ->
                    find_orphaned (snd kv) (snd kv) (JObj []) = Ok []) items ->
  incl part items ->
  orphan_loop (JObj items) (JObj []) part [] = Ok [].
Proof.
  intros Hd Hwf IH. induction part as [|[k v] part IHp]; intros Hsub;
    [reflexivity|].
  assert (Hin : In (k, v) items) by (apply Hsub; left; reflexivity).
  assert (Hrest : incl part items)
    by (intros kv Hkv; apply Hsub; right; exact Hkv).
  pose proof (dict_get_item _ _ _ Hd Hin) as Hget.
  rewrite Forall_forall in Hwf, IH.
  specialize (Hwf _ Hin). specialize (IH _ Hin Hwf). simpl in Hwf, IH.
  rewrite orphan_loop_step.
  assert (He : entry (JObj items) (JObj []) k v = Ok None).
  { unfold entry, key_in, dict_mem, get_or. rewrite Hget.
    cbn [negb andb dict_get].
    destruct v; try reflexivity.
    - rewrite not_in_list, unmatched_self;
        [reflexivity|apply wf_json_arr; exact Hwf|apply incl_refl].
    - rewrite IH. reflexivity. }
  rewrite He. simpl. apply IHp, Hrest.
Qed.

(** C9: the diff of a document against itself as [base], with an empty
    [local], is the empty mapping. *)
Theorem C9_self_diff_is_empty (s : json) :
  wf_json s = true ->
  find_orphaned s s (JObj []) = Ok [].
Proof.
  induction s as [| b | n | f | t | elems IH | items IH] using json_induction;
    intros Hwf; try reflexivity.
  rewrite find_orphaned_loop.
  apply wf_json_obj in Hwf as [Hd Hwf].
  apply orphan_loop_self; auto using incl_refl.
Qed.

Lemma C9_witness :
  find_orphaned
    (JObj [(u "editor", JObj [(u "fontSize", JFloat (FFin false 29 (-1)));
                              (u "rulers", JArr [JInt 80; JFloat FNan;
                                                 JObj [(u "k", JArr [])]])]);
           (u "exclude", JArr [JStr (u "a"); JBool true; JNull]);
           (u "x", JInt 5)])
    (JObj [(u "editor", JObj [(u "fontSize", JFloat (FFin false 29 (-1)));
                              (u "rulers", JArr [JInt 80; JFloat FNan;
                                                 JObj [(u "k", JArr [])]])]);
           (u "exclude", JArr [JStr (u "a"); JBool true; JNull]);
           (u "x", JInt 5)])
    (JObj [])
  = Ok [].
Proof.
  apply C9_self_diff_is_empty. reflexivity.
Defined.

(** ** The escaper *)

Lemma special_is_listed (c : char) :
  is_special c = true -> In c special_chars.
Proof.
  unfold is_special. intros H. apply existsb_exists in H as [x [Hin Hx]].
  unfold char_eqb in Hx. apply N.eqb_eq in Hx. subst x. exact Hin.
Qed.

Lemma special_not_slash (c : char) :
  is_special c = true -> char_eqb c slash = false.
Proof.
  intros H. destruct (char_eqb c slash) eqn:E; [|reflexivity].
  unfold char_eqb in E. apply N.eqb_eq in E. subst c. discriminate H.
Qed.

Lemma special_not_alnum (c : char) :
  is_special c = true -> is_ascii_alnum c = false.
Proof.
  intros H. apply special_is_listed in H. simpl in H.
  repeat (destruct H as [<-|H]; [reflexivity|]). contradiction.
Qed.

Lemma operator_is_special (c : char) :
  is_operator c = true -> is_special c = true.
Proof.
  unfold is_operator. intros H. apply existsb_exists in H as [x [Hin Hx]].
  unfold char_eqb in Hx. apply N.eqb_eq in Hx. subst x. simpl in Hin.
  repeat (destruct Hin as [<-|Hin]; [reflexivity|]). contradiction.
Qed.

Lemma not_special_not_operator (c : char) :
  is_special c = false ->
  char_eqb c backslash = false /\ is_operator c = false.
Proof.
  intros H. split.
  - destruct (char_eqb c backslash) eqn:E; [|reflexivity].
    unfold char_eqb in E. apply N.eqb_eq in E. subst c. discriminate H.
  - destruct (is_operator c) eqn:E; [|reflexivity].
    apply operator_is_special in E. congruence.
Qed.

(** The escaper works character by character on the stripped line. *)
Lemma escape_line_chars (line : str) :
  escape_line line = flat_map escape_char (rstrip line).
Proof.
  unfold escape_line. induction (rstrip line) as [|c s IH]; [reflexivity|].
  unfold escape_char at 1. simpl.
  destruct (is_special c) eqn:Hs; simpl.
  - rewrite (special_not_slash _ Hs). simpl. rewrite IH. reflexivity.
  - destruct (char_eqb c slash); simpl; rewrite IH; reflexivity.
Qed.

Lemma re_literal_backslash (d : char) (p : str) :
  is_ascii_alnum d = false ->
  re_literal (backslash :: d :: p) = option_map (cons d) (re_literal p).
Proof. intros H. simpl. rewrite H. reflexivity. Qed.

Lemma re_literal_plain (c : char) (p : str) :
  char_eqb c backslash = false ->
  is_operator c = false ->
  re_literal (c :: p) = option_map (cons c) (re_literal p).
Proof. intros Hb Ho. simpl. rewrite Hb, Ho. reflexivity. Qed.

Lemma re_literal_escaped (s : str) :
  re_literal (flat_map escape_char s) = Some s.
Proof.
  induction s as [|c s IH]; [reflexivity|].
  change (flat_map escape_char (c :: s))
    with (escape_char c ++ flat_map escape_char s).
  unfold escape_char at 1.
  destruct (char_eqb c slash) eqn:Hslash.
  - unfold char_eqb in Hslash. apply N.eqb_eq in Hslash. subst c.
    cbn [app]. rewrite re_literal_backslash, IH; reflexivity.
  - cbn [re_escape]. destruct (is_special c) eqn:Hs; cbn [app].
    + rewrite re_literal_backslash, IH;
        [reflexivity|apply special_not_alnum, Hs].
    + destruct (not_special_not_operator _ Hs) as [Hb Ho].
      rewrite re_literal_plain, IH; auto.
Qed.

Lemma count_char_cons (c d : char) (s : str) :
  count_char c (d :: s)
  = ((if char_eqb c d then 1 else 0) + count_char c s)%nat.
Proof.
  unfold count_char. cbn [filter]. destruct (char_eqb c d); reflexivity.
Qed.

Lemma space_not_slash (c : char) :
  is_space c = true -> char_eqb slash c = false.
Proof.
  intros H. destruct (char_eqb slash c) eqn:E; [|reflexivity].
  unfold char_eqb in E. apply N.eqb_eq in E. subst c. discriminate H.
Qed.

(** Stripping removes no slash. *)
Lemma rstrip_count_slash (line : str) :
  count_char slash (rstrip line) = count_char slash line.
Proof.
  induction line as [|c s IH]; [reflexivity|].
  rewrite count_char_cons. cbn [rstrip].
  destruct (rstrip s) as [|d r] eqn:Hr.
  - destruct (is_space c) eqn:Hsp.
    + rewrite (space_not_slash _ Hsp). exact IH.
    + rewrite count_char_cons, IH. reflexivity.
  - rewrite count_char_cons, IH. reflexivity.
Qed.

Lemma escape_char_count_slash (c : char) :
  count_char slash (escape_char c) = count_char slash [c].
Proof.
  unfold escape_char. destruct (char_eqb c slash) eqn:E.
  - unfold char_eqb in E. apply N.eqb_eq in E. subst c. reflexivity.
  - assert (E' : char_eqb slash c = false).
    { unfold char_eqb in *. rewrite N.eqb_sym. exact E. }
    cbn [re_escape]. destruct (is_special c);
      rewrite !count_char_cons, ?E'; reflexivity.
Qed.

Lemma count_char_app (c : char) (s t : str) :
  count_char c (s ++ t) = (count_char c s + count_char c t)%nat.
Proof.
  unfold count_char. rewrite filter_app, length_app. reflexivity.
Qed.

Lemma escaped_count_slash (s : str) :
  count_char slash (flat_map escape_char s) = count_char slash s.
Proof.
  induction s as [|c s IH]; [reflexivity|].
  change (flat_map escape_char (c :: s))
    with (escape_char c ++ flat_map escape_char s).
  rewrite count_char_app, escape_char_count_slash, IH.
  rewrite (count_char_cons slash c s), (count_char_cons slash c []).
  unfold count_char at 1. simpl. lia.
Qed.

Lemma rstrip_app_space (s : str) (c : char) :
  is_space c = true -> rstrip (s ++ [c]) = rstrip s.
Proof.
  intros Hc. induction s as [|d s IH]; simpl.
  - rewrite Hc. reflexivity.
  - rewrite IH. reflexivity.
Qed.

(** C8: the output for a line is the stripped line, character by
    character, with [\/] for every slash and the [re.escape] of every
    other character; no slash of the line is lost on the way, so the
    output has as many slashes as the line, each behind a backslash.  For
    [a/b] the output is [a\/b]. *)
Theorem C8_every_slash_is_escaped :
  (forall line,
      escape_line line = flat_map escape_char (rstrip line)
      /\ escape_char slash = [backslash; slash]
      /\ count_char slash (escape_line line) = count_char slash line)
  /\ escape_line (u "a/b") = u "a\/b".
Proof.
  split; [|reflexivity].
  intros line. repeat split.
  - apply escape_line_chars.
  - rewrite escape_line_chars, escaped_count_slash. apply rstrip_count_slash.
Qed.

(** C4, as the code has it: read as a pattern, the output for a line
    stands for the line without its trailing whitespace, character by
    character and with no operator left; so for a line that ends in no
    whitespace (read with or without its newline) the pattern matches the
    occurrences of the line itself and nothing else.  For [a.b*c] the
    output is [a\.b\*c]. *)
Theorem C4_output_is_the_literal_line :
  (forall line, re_literal (escape_line line) = Some (rstrip line))
  /\ (forall line,
         rstrip line = line ->
         re_literal (escape_line line) = Some line
         /\ re_literal (escape_line (line ++ [newline])) = Some line)
  /\ escape_line (u "a.b*c") = u "a\.b\*c".
Proof.
  assert (H : forall line, re_literal (escape_line line) = Some (rstrip line)).
  { intros line. rewrite escape_line_chars. apply re_literal_escaped. }
  split; [exact H|]. split; [|reflexivity].
  intros line Hline. rewrite !H, rstrip_app_space, Hline by reflexivity.
  split; reflexivity.
Qed.

Lemma C4_witness :
  re_literal (escape_line (u "s/a.b*c/ d/")) = Some (u "s/a.b*c/ d/")
  /\ re_literal (escape_line (u "s/a.b*c/ d/" ++ [newline]))
     = Some (u "s/a.b*c/ d/").
Proof.
  apply (proj1 (proj2 C4_output_is_the_literal_line) (u "s/a.b*c/ d/")).
  reflexivity.
Defined.

(** C4 as the specification words it fails on a line that ends in a
    space: the line [a ] has no trailing newline, and its output is the
    pattern [a], which stands for [a] alone and so matches more than the
    occurrences of the line. *)
Lemma C4_counterexample :
  last (u "a ") 0%N <> newline
  /\ escape_line (u "a ") = u "a"
  /\ re_literal (escape_line (u "a ")) = Some (u "a")
  /\ re_literal (escape_line (u "a ")) <> Some (u "a ").
Proof. repeat split; discriminate. Qed.

(** ** Cleaning JSONC *)

Lemma lines_not_empty (text : str) : lines text <> [].
Proof.
  destruct text as [|c t]; simpl; [discriminate|].
  destruct (char_eqb c newline); [discriminate|].
  destruct (lines t); discriminate.
Qed.

Lemma join_cons (sep p : str) (parts : list str) :
  parts <> [] -> join sep (p :: parts) = p ++ sep ++ join sep parts.
Proof. destruct parts; [contradiction|reflexivity]. Qed.

(** The first line of a text starts with the first character of the
    text, unless that is a newline. *)
Lemma lines_head (d : char) (t : str) :
  char_eqb d newline = false ->
  exists l ls, lines (d :: t) = (d :: l) :: ls /\ lines t = l :: ls.
Proof.
  intros Hd. simpl. rewrite Hd.
  destruct (lines t) as [|l ls] eqn:E.
  - exfalso. exact (lines_not_empty _ E).
  - exists l, ls. split; reflexivity.
Qed.

Lemma slash_not_newline (c : char) :
  char_eqb c slash = true -> char_eqb c newline = false.
Proof.
  unfold char_eqb. intros H. apply N.eqb_eq in H. subst c. reflexivity.
Qed.

Lemma sub_comments_outside (c d : char) (t : str) :
  sub_comments false (c :: d :: t)
  = if char_eqb c slash && char_eqb d slash then sub_comments true (d :: t)
    else c :: sub_comments false (d :: t).
Proof. reflexivity. Qed.

Lemma lines_cons (c : char) (t : str) :
  lines (c :: t)
  = if char_eqb c newline then [] :: lines t
    else match lines t with
         | l :: ls => (c :: l) :: ls
         | [] => [[c]]
         end.
Proof. reflexivity. Qed.

Lemma before_comment_cons (c d : char) (l : str) :
  before_comment (c :: d :: l)
  = if char_eqb c slash && char_eqb d slash then []
    else c :: before_comment (d :: l).
Proof. reflexivity. Qed.

(** The scan for comments against the line-by-line description, outside
    a comment and inside one. *)
Lemma sub_comments_lines (text : str) :
  sub_comments false text = join [newline] (map before_comment (lines text))
  /\ sub_comments true text
     = join [newline] ([] :: map before_comment (tl (lines text))).
Proof.
  induction text as [|c t [IHout IHin]]; [split; reflexivity|].
  assert (Hne : map before_comment (lines t) <> []).
  { intros H. apply map_eq_nil in H. exact (lines_not_empty _ H). }
  split.
  - destruct t as [|d t'].
    + simpl. destruct (char_eqb c newline) eqn:Hc; [|reflexivity].
      unfold char_eqb in Hc. apply N.eqb_eq in Hc. subst c. reflexivity.
    + rewrite sub_comments_outside, (lines_cons c).
      destruct (char_eqb c slash && char_eqb d slash) eqn:Hcd.
      * apply andb_true_iff in Hcd as [Hc Hd].
        rewrite IHin, (slash_not_newline _ Hc).
        destruct (lines_head d t' (slash_not_newline _ Hd)) as [l [ls [E1 E2]]].
        rewrite E1. cbn [tl map]. rewrite before_comment_cons, Hc, Hd.
        reflexivity.
      * rewrite IHout.
        destruct (char_eqb c newline) eqn:Hc.
        -- unfold char_eqb in Hc. apply N.eqb_eq in Hc. subst c.
           cbn [map before_comment]. rewrite join_cons by exact Hne.
           reflexivity.
        -- destruct (char_eqb d newline) eqn:Hd.
           ++ rewrite (lines_cons d), Hd. cbn [map before_comment].
              rewrite !join_cons
                by (intros H; apply map_eq_nil in H;
                    exact (lines_not_empty _ H)).
              reflexivity.
           ++ destruct (lines_head d t' Hd) as [l [ls [E1 E2]]].
              rewrite E1. cbn [map]. rewrite before_comment_cons, Hcd.
              destruct (map before_comment ls); reflexivity.
  - cbn [sub_comments]. rewrite lines_cons.
    destruct (char_eqb c newline) eqn:Hc.
    + unfold char_eqb in Hc. apply N.eqb_eq in Hc. subst c.
      rewrite IHout. cbn [tl]. rewrite join_cons by exact Hne. reflexivity.
    + rewrite IHin. destruct (lines t) as [|l ls] eqn:E; reflexivity.
Qed.

Lemma sub_comments_spec (text : str) :
  sub_comments false text = remove_line_comments text.
Proof. apply sub_comments_lines. Qed.

Lemma closes_match (text : str) :
  closes text = match match_closer text with
                | Some _ => true
                | None => false
                end.
Proof.
  induction text as [|c t IH]; [reflexivity|]. simpl.
  destruct (is_space c).
  - rewrite IH. destruct (match_closer t); reflexivity.
  - destruct (is_closer c); reflexivity.
Qed.

Lemma space_not_comma (c : char) :
  is_space c = true -> char_eqb c comma = false.
Proof.
  intros H. destruct (char_eqb c comma) eqn:E; [|reflexivity].
  unfold char_eqb in E. apply N.eqb_eq in E. subst c. discriminate H.
Qed.

Lemma closer_not_comma (c : char) :
  is_closer c = true -> char_eqb c comma = false.
Proof.
  intros H. destruct (char_eqb c comma) eqn:E; [|reflexivity].
  unfold char_eqb in E. apply N.eqb_eq in E. subst c. discriminate H.
Qed.

(** The scan for trailing commas against the comma-by-comma description:
    at the start of a scan, and while group 1 of a match is copied. *)
Lemma sub_commas_scan (text : str) :
  sub_commas O text = remove_trailing_commas text
  /\ forall n, match_closer text = Some n ->
               sub_commas n text = remove_trailing_commas text.
Proof.
  induction text as [|c t [IHscan IHcopy]]; [split; [reflexivity|discriminate]|].
  split.
  - cbn [sub_commas remove_trailing_commas]. rewrite closes_match.
    destruct (char_eqb c comma); cbn [andb].
    + destruct (match_closer t) as [n|] eqn:E.
      * apply IHcopy. reflexivity.
      * rewrite IHscan. reflexivity.
    + rewrite IHscan. reflexivity.
  - intros n Hn. cbn [match_closer] in Hn.
    destruct (is_space c) eqn:Hsp.
    + destruct (match_closer t) as [m|] eqn:E; [|discriminate].
      injection Hn as <-.
      cbn [sub_commas remove_trailing_commas].
      rewrite (space_not_comma _ Hsp), (IHcopy _ eq_refl). reflexivity.
    + destruct (is_closer c) eqn:Hcl; [|discriminate].
      injection Hn as <-.
      cbn [sub_commas remove_trailing_commas].
      rewrite (closer_not_comma _ Hcl), IHscan. reflexivity.
Qed.

Lemma clean_jsonc_spec (text : str) :
  clean_jsonc text = remove_trailing_commas (remove_line_comments text).
Proof.
  unfold clean_jsonc. rewrite sub_comments_spec.
  exact (proj1 (sub_commas_scan _)).
Qed.

(** A text the strict decoder reads is read by [json.loads], as the same
    document. *)
Lemma strict_decoder_agrees (budget : nat) :
  (forall s r, strict_scan_once budget s = Ok r -> scan_once budget s = Ok r)
  /\ (forall s pairs r, strict_object_pairs budget s pairs = Ok r ->
                        object_pairs budget s pairs = Ok r)
  /\ (forall s values r, strict_array_items budget s values = Ok r ->
                         array_items budget s values = Ok r).
Proof.
  induction budget as [|b [IHscan [IHobj IHarr]]];
    [repeat split; intros; discriminate|].
  repeat split.
  - intros s r H. cbn [strict_scan_once] in H. cbn [scan_once].
    destruct s as [|c s1]; [discriminate|].
    destruct (char_eqb c dquote); [exact H|].
    destruct (c =? 123)%N.
    { destruct (skip_ws s1) as [|d s2]; [discriminate|].
      destruct (d =? 125)%N; [exact H|].
      destruct (char_eqb d dquote); [apply IHobj, H|discriminate]. }
    destruct (c =? 91)%N.
    { destruct (skip_ws s1) as [|d s2]; [discriminate|].
      destruct (d =? 93)%N; [exact H|apply IHarr, H]. }
    destruct (starts_with (u "null") (c :: s1)); [exact H|].
    destruct (starts_with (u "true") (c :: s1)); [exact H|].
    destruct (starts_with (u "false") (c :: s1)); [exact H|].
    destruct (match_number (c :: s1)) as [r'|]; [exact H|discriminate].
  - intros s pairs r H. cbn [strict_object_pairs] in H. cbn [object_pairs].
    destruct (scanstring s) as [[k rest]|]; [|discriminate].
    cbn [bind fst snd] in *.
    destruct (skip_ws rest) as [|c s1]; [discriminate|].
    destruct (negb (c =? 58)%N); [discriminate|].
    destruct (strict_scan_once b (skip_ws s1)) as [[v1 r1]|] eqn:E;
      [|discriminate].
    rewrite (IHscan _ _ E). cbn [bind fst snd] in *.
    destruct (skip_ws r1) as [|d s2]; [discriminate|].
    destruct (d =? 125)%N; [exact H|].
    destruct (negb (char_eqb d comma)); [discriminate|].
    destruct (skip_ws s2) as [|q s3]; [discriminate|].
    destruct (char_eqb q dquote); [apply IHobj, H|discriminate].
  - intros s values r H. cbn [strict_array_items] in H. cbn [array_items].
    destruct (strict_scan_once b s) as [[v1 r1]|] eqn:E; [|discriminate].
    rewrite (IHscan _ _ E). cbn [bind fst snd] in *.
    destruct (skip_ws r1) as [|d s1]; [discriminate|].
    destruct (d =? 93)%N; [exact H|].
    destruct (negb (char_eqb d comma)); [discriminate|apply IHarr, H].
Qed.

Lemma strict_json_loads_agrees (text : str) (v : json) :
  strict_json_loads text = Ok v -> json_loads text = Ok v.
Proof.
  unfold strict_json_loads, json_loads.
  assert (H : (r <- strict_scan_once (2 * List.length (skip_ws text) + 1)
                      (skip_ws text) ;;
               match skip_ws (snd r) with
               | [] => Ok (fst r)
               | _ :: _ => Raise JSONDecodeError
               end) = Ok v ->
              (r <- scan_once (2 * List.length (skip_ws text) + 1)
                      (skip_ws text) ;;
               match skip_ws (snd r) with
               | [] => Ok (fst r)
               | _ :: _ => Raise JSONDecodeError
               end) = Ok v).
  { destruct (strict_scan_once _ (skip_ws text)) as [r|] eqn:E;
      [|discriminate].
    rewrite (proj1 (strict_decoder_agrees _) _ _ E). intros H; exact H. }
  destruct text as [|c t]; [exact H|].
  destruct c as [|p]; [exact H|].
  repeat (destruct p as [p|p|]; try exact H; try discriminate).
Qed.

(** C5, as the code has it: [parse_jsonc] returns the empty mapping for a
    file that does not exist; for one that does, it hands to [json.loads]
    the text without its line comments (from two slashes to the end of
    the line, wherever they stand) and then without the commas that come
    just before, up to whitespace, a closing brace or bracket.
    [json.loads] reads every strict JSON text as the strict decoder does,
    and accepts [NaN], [Infinity] and [-Infinity] besides.  The text of
    the example, with its comment and its trailing comma, is strict JSON
    once cleaned and parses to [{a: 1}]. *)
Theorem C5_parse_jsonc (path : Type) (fs : files path) (p : path) :
  parse_jsonc path fs p
  = match fs p with
    | None => Ok (JObj [])
    | Some text =>
        json_loads (remove_trailing_commas (remove_line_comments text))
    end
  /\ (forall text v, strict_json_loads text = Ok v -> json_loads text = Ok v)
  /\ remove_line_comments jsonc_example
     = u "{ " ++ [dquote] ++ u "a" ++ [dquote] ++ u ": 1, " ++ [newline] ++ u " }"
  /\ remove_trailing_commas (remove_line_comments jsonc_example)
     = u "{ " ++ [dquote] ++ u "a" ++ [dquote] ++ u ": 1 " ++ [newline] ++ u " }"
  /\ strict_json_loads
       (remove_trailing_commas (remove_line_comments jsonc_example))
     = Ok (JObj [(u "a", JInt 1)])
  /\ (fs p = Some jsonc_example ->
      parse_jsonc path fs p = Ok (JObj [(u "a", JInt 1)])).
Proof.
  unfold parse_jsonc. repeat split.
  - destruct (fs p); [|reflexivity]. rewrite clean_jsonc_spec. reflexivity.
  - apply strict_json_loads_agrees.
  - intros ->. reflexivity.
Qed.

Lemma C5_witness :
  parse_jsonc str (zed_dir (Some jsonc_example) None None)
    (u "/z/settings.base.jsonc")
  = Ok (JObj [(u "a", JInt 1)]).
Proof.
  apply (C5_parse_jsonc str (zed_dir (Some jsonc_example) None None)
           (u "/z/settings.base.jsonc")).
  reflexivity.
Defined.

(** C5 as the specification words it fails on a file that holds [NaN]:
    the cleaned text is not strict JSON, and [parse_jsonc] returns a
    document for it. *)
Lemma C5_counterexample :
  strict_json_loads (remove_trailing_commas (remove_line_comments nan_text))
  = Raise JSONDecodeError
  /\ parse_jsonc str (zed_dir (Some nan_text) None None)
       (u "/z/settings.base.jsonc")
     = Ok (JObj [(u "a", JFloat FNan)]).
Proof. split; reflexivity. Qed.

(** ** The run of the script *)

(** C6: without [settings.json] in the directory of the script, the run
    writes the error line to stderr, nothing to stdout, and exits with
    status 1. *)
Theorem C6_missing_settings_file
  (path : Type) (joinpath : path -> str -> path) (path_str : path -> str)
  (float_repr : pyfloat -> str) (fs : files path) (script_dir : path) :
  fs (joinpath script_dir (u "settings.json")) = None ->
  let run := main path joinpath path_str float_repr fs script_dir in
  run = Exit 1 []
          (u "Error: " ++ path_str (joinpath script_dir (u "settings.json"))
             ++ u " not found" ++ [newline])
  /\ exit_status run = 1
  /\ stdout_of run = [].
Proof.
  intros Hfs run. unfold run, main, print. rewrite Hfs.
  rewrite <- !app_assoc. repeat split.
Qed.

Lemma C6_witness :
  let run := main str posix_join (fun p => p) demo_float_repr
               (zed_dir (Some (u "{}")) None None) (u "/z") in
  run = Exit 1 []
          (u "Error: " ++ posix_join (u "/z") (u "settings.json")
             ++ u " not found" ++ [newline])
  /\ exit_status run = 1
  /\ stdout_of run = [].
Proof.
  apply (C6_missing_settings_file str posix_join (fun p => p) demo_float_repr
           (zed_dir (Some (u "{}")) None None) (u "/z")).
  reflexivity.
Defined.

(** C7, as the code has it: when [settings.json] exists, the three files
    parse and [find_orphaned] returns, the run prints the orphan mapping
    as [json.dumps] writes it with an indent of two spaces when the
    mapping is not empty, the line [No orphaned settings found.] when it
    is, nothing to stderr, and exits with status 0. *)
Theorem C7_report_is_printed
  (path : Type) (joinpath : path -> str -> path) (path_str : path -> str)
  (float_repr : pyfloat -> str) (fs : files path) (script_dir : path)
  (text : str) (base local_settings settings : json) (orphaned : dict) :
  fs (joinpath script_dir (u "settings.json")) = Some text ->
  parse_jsonc path fs (joinpath script_dir (u "settings.base.jsonc")) = Ok base ->
  parse_jsonc path fs (joinpath script_dir (u "settings.local.jsonc"))
  = Ok local_settings ->
  parse_jsonc path fs (joinpath script_dir (u "settings.json")) = Ok settings ->
  find_orphaned settings base local_settings = Ok orphaned ->
  let run := main path joinpath path_str float_repr fs script_dir in
  run = Exit 0
          (if truthy orphaned
           then json_dumps float_repr (JObj orphaned) ++ [newline]
           else u "No orphaned settings found." ++ [newline])
          []
  /\ exit_status run = 0.
Proof.
  intros Hfs Hb Hl Hs Ho run. unfold run, main.
  rewrite Hfs, Hb, Hl, Hs. cbn [bind]. rewrite Ho. cbn [bind].
  unfold print. destruct (truthy orphaned); split; reflexivity.
Qed.

Lemma C7_witness :
  let run := main str posix_join (fun p => p) demo_float_repr
               (zed_dir (Some editor_base_text) None
                  (Some editor_settings_text)) (u "/z") in
  run = Exit 0 editor_report [] /\ exit_status run = 0.
Proof.
  exact (C7_report_is_printed str posix_join (fun p => p) demo_float_repr
           (zed_dir (Some editor_base_text) None (Some editor_settings_text))
           (u "/z") editor_settings_text
           (JObj [(u "editor", JObj [(u "fontSize", JInt 14)])])
           (JObj [])
           (JObj [(u "editor",
                   JObj [(u "fontSize", JInt 14); (u "tabSize", JInt 2)])])
           [(u "editor", JObj [(u "tabSize", JInt 2)])]
           eq_refl eq_refl eq_refl eq_refl eq_refl).
Defined.

(** C7 as the specification words it fails on a run where the three
    inputs parse and [find_orphaned] raises: nothing is printed and the
    status is 1. *)
Lemma C7_counterexample :
  let fs := zed_dir (Some mismatch_base_text) None
              (Some mismatch_settings_text) in
  parse_jsonc str fs (u "/z/settings.base.jsonc")
  = Ok (JObj [(u "a", JInt 5)])
  /\ parse_jsonc str fs (u "/z/settings.local.jsonc") = Ok (JObj [])
  /\ parse_jsonc str fs (u "/z/settings.json")
     = Ok (JObj [(u "a", JArr [JInt 1])])
  /\ main str posix_join (fun p => p) demo_float_repr fs (u "/z")
     = Uncaught TypeError []
  /\ exit_status (main str posix_join (fun p => p) demo_float_repr fs (u "/z"))
     = 1.
Proof. repeat split. Qed.

(** The run on the fully explained settings of the specification,
    [{a: 1}] against the base [{a: 1}]. *)
Example fully_explained_run :
  main str posix_join (fun p => p) demo_float_repr
    (zed_dir (Some (u "{" ++ quoted "a" ++ u ": 1}")) None
       (Some (u "{" ++ quoted "a" ++ u ": 1}"))) (u "/z")
  = Exit 0 (u "No orphaned settings found." ++ [newline]) [].
Proof. reflexivity. Qed.

(** ** The budget of the decoder *)

Lemma skip_ws_length (s : str) : (List.length (skip_ws s) <= List.length s)%nat.
Proof.
  induction s as [|c s IH]; simpl; [lia|].
  destruct (is_json_ws c); simpl; lia.
Qed.

Lemma span_digits_length (s : str) :
  (List.length (snd (span_digits s)) <= List.length s)%nat.
Proof.
  induction s as [|c s IH]; simpl; [lia|].
  destruct (is_digit c); simpl; lia.
Qed.

Lemma scanstring_length_upto (n : nat) :
  forall s, (List.length s <= n)%nat ->
            forall k rest, scanstring s = Ok (k, rest) ->
                           (List.length rest < List.length s)%nat.
Proof.
  induction n as [|n IH]; intros s Hn.
  { destruct s; [discriminate|simpl in Hn; lia]. }
  assert (Hrec : forall s' k rest,
             (List.length s' < List.length s)%nat ->
             forall (f : str -> str),
               (r <- scanstring s' ;; Ok (f (fst r), snd r)) = Ok (k, rest) ->
               (List.length rest < List.length s)%nat).
  { intros s' k rest Hlt f H.
    destruct (scanstring s') as [[k' rest']|] eqn:E; [|discriminate].
    simpl in H. injection H as _ <-.
    assert (Hs' : (List.length s' <= n)%nat) by lia.
    specialize (IH s' Hs' _ _ E). lia. }
  intros k rest H. destruct s as [|c s1]; [discriminate|].
  cbn [scanstring] in H.
  destruct (char_eqb c dquote).
  { injection H as _ <-. simpl. lia. }
  destruct (char_eqb c backslash).
  - destruct s1 as [|esc s2]; [discriminate|].
    destruct (esc =? 117)%N.
    + destruct s2 as [|h1 [|h2 [|h3 [|h4 s3]]]]; try discriminate.
      destruct (hex4 h1 h2 h3 h4) as [uni|]; [|discriminate].
      assert (Halone : (r <- scanstring s3 ;; Ok (uni :: fst r, snd r))
                       = Ok (k, rest) ->
                       (List.length rest
                        < List.length (c :: esc :: h1 :: h2 :: h3 :: h4 :: s3))%nat).
      { apply (Hrec s3 k rest); simpl; lia. }
      destruct (is_high_surrogate uni); [|auto].
      destruct s3 as [|b [|l [|k1 [|k2 [|k3 [|k4 s4]]]]]]; auto.
      destruct (char_eqb b backslash && (l =? 117)%N); [|auto].
      destruct (hex4 k1 k2 k3 k4) as [uni2|]; [|discriminate].
      destruct (is_low_surrogate uni2); [|auto].
      revert H. apply (Hrec s4 k rest). simpl; lia.
    + destruct (unescape esc) as [ch|]; [|discriminate].
      revert H. apply (Hrec s2 k rest). simpl; lia.
  - destruct (c <? 32)%N; [discriminate|].
    revert H. apply (Hrec s1 k rest). simpl; lia.
Qed.

Lemma scanstring_length (s k rest : str) :
  scanstring s = Ok (k, rest) -> (List.length rest < List.length s)%nat.
Proof. apply (scanstring_length_upto (List.length s)). lia. Qed.

Lemma match_number_length (s : str) (v : json) (rest : str) :
  match_number s = Some (v, rest) ->
  (List.length rest < List.length s)%nat.
Proof.
  unfold match_number.
  set (negative := match s with c :: _ => (c =? 45)%N | [] => false end).
  set (s1 := if negative then tl s else s).
  assert (H1 : (List.length s1 <= List.length s)%nat).
  { unfold s1. destruct negative; [destruct s; simpl; lia|lia]. }
  clearbody s1 negative.
  destruct s1 as [|c s2]; [discriminate|].
  destruct (is_digit c); [|discriminate]. cbn [negb].
  set (int_part := if (c =? 48)%N then ([c], s2)
                   else let r := span_digits s2 in (c :: fst r, snd r)).
  assert (H3 : (List.length (snd int_part) <= List.length s2)%nat).
  { unfold int_part. destruct (c =? 48)%N; simpl;
      [lia|apply span_digits_length]. }
  clearbody int_part. destruct int_part as [ip s3]. cbn [fst snd] in *.
  set (frac := match s3 with
               | p :: d :: _ =>
                   if (p =? 46)%N && is_digit d then span_digits (tl s3)
                   else ([], s3)
               | _ => ([], s3)
               end).
  assert (H4 : (List.length (snd frac) <= List.length s3)%nat).
  { unfold frac. destruct s3 as [|p [|d s3']]; try (simpl; lia).
    destruct ((p =? 46)%N && is_digit d); [|simpl; lia].
    cbn [tl]. pose proof (span_digits_length (d :: s3')).
    cbn [List.length] in *. unfold str, char in *. lia. }
  clearbody frac. destruct frac as [fr s4]. cbn [fst snd] in *.
  cbv zeta beta.
  match goal with
  | |- match fr with
       | [] => match ?E with _ => _ end
       | _ => _
       end = _ -> _ => set (exp := E)
  end.
  assert (H5 : forall e s7, exp = Some (e, s7) ->
                            (List.length s7 <= List.length s4)%nat).
  { intros e s7. unfold exp.
    destruct s4 as [|e0 s5]; [discriminate|].
    destruct ((e0 =? 101)%N || (e0 =? 69)%N); [|discriminate].
    destruct s5 as [|sg s6]; [discriminate|].
    pose proof (span_digits_length s6) as L6.
    pose proof (span_digits_length (sg :: s6)) as L5.
    cbn [List.length] in *. unfold str, char in *.
    destruct (sg =? 45)%N; [|destruct (sg =? 43)%N].
    - destruct s6 as [|d s6']; [discriminate|].
      destruct (is_digit d); [|discriminate].
      intros H. injection H as _ <-. cbn [List.length] in *.
      eapply Nat.le_trans; [exact L6|lia].
    - destruct s6 as [|d s6']; [discriminate|].
      destruct (is_digit d); [|discriminate].
      intros H. injection H as _ <-. cbn [List.length] in *.
      eapply Nat.le_trans; [exact L6|lia].
    - destruct (is_digit sg); [|discriminate].
      intros H. injection H as _ <-.
      eapply Nat.le_trans; [exact L5|lia]. }
  clearbody exp. cbn [List.length] in *. unfold str, char in *.
  destruct fr, exp as [[e s7]|]; intros H; injection H as _ <-;
    try specialize (H5 _ _ eq_refl); unfold str, char in *; lia.
Qed.

Lemma scanstring_budget_upto (n : nat) :
  forall s, (List.length s <= n)%nat -> scanstring s <> Raise Exhausted.
Proof.
  induction n as [|n IH]; intros s Hn.
  { destruct s; [discriminate|simpl in Hn; lia]. }
  assert (Hrec : forall s',
             (List.length s' < List.length s)%nat ->
             forall (f : str -> str),
               (r <- scanstring s' ;; Ok (f (fst r), snd r))
               <> Raise Exhausted).
  { intros s' Hlt f H.
    assert (Hs' : (List.length s' <= n)%nat) by lia.
    specialize (IH s' Hs').
    destruct (scanstring s') as [[k' rest']|e]; [discriminate|].
    simpl in H. congruence. }
  destruct s as [|c s1]; [discriminate|].
  cbn [scanstring].
  destruct (char_eqb c dquote); [discriminate|].
  destruct (char_eqb c backslash).
  - destruct s1 as [|esc s2]; [discriminate|].
    destruct (esc =? 117)%N.
    + destruct s2 as [|h1 [|h2 [|h3 [|h4 s3]]]]; try discriminate.
      destruct (hex4 h1 h2 h3 h4) as [uni|]; [|discriminate].
      assert (Halone : (r <- scanstring s3 ;; Ok (uni :: fst r, snd r))
                       <> Raise Exhausted)
        by (apply (Hrec s3); simpl; lia).
      destruct (is_high_surrogate uni); [|auto].
      destruct s3 as [|b [|l [|k1 [|k2 [|k3 [|k4 s4]]]]]]; auto.
      destruct (char_eqb b backslash && (l =? 117)%N); [|auto].
      destruct (hex4 k1 k2 k3 k4) as [uni2|]; [|discriminate].
      destruct (is_low_surrogate uni2); [|auto].
      apply (Hrec s4). simpl; lia.
    + destruct (unescape esc) as [ch|]; [|discriminate].
      apply (Hrec s2). simpl; lia.
  - destruct (c <? 32)%N; [discriminate|].
    apply (Hrec s1). simpl; lia.
Qed.

Lemma scanstring_budget (s : str) : scanstring s <> Raise Exhausted.
Proof. apply (scanstring_budget_upto (List.length s)). lia. Qed.
Lemma skipn_cons_length (n : nat) (c : char) (s : str) :
  (List.length (skipn (S n) (c :: s)) < List.length (c :: s))%nat.
Proof. rewrite length_skipn. simpl. lia. Qed.

Lemma skip_ws_cons_length (s : str) (d : char) (s' : str) :
  skip_ws s = d :: s' -> (List.length s' < List.length s)%nat.
Proof.
  intros H. pose proof (skip_ws_length s) as L. rewrite H in L.
  simpl in L. lia.
Qed.

Lemma decoder_lengths (budget : nat) :
  (forall s v rest, scan_once budget s = Ok (v, rest) ->
                    (List.length rest < List.length s)%nat)
  /\ (forall s pairs v rest, object_pairs budget s pairs = Ok (v, rest) ->
                             (List.length rest < List.length s)%nat)
  /\ (forall s values v rest, array_items budget s values = Ok (v, rest) ->
                              (List.length rest < List.length s)%nat).
Proof.
  induction budget as [|b [IHscan [IHobj IHarr]]];
    [repeat split; intros; discriminate|].
  repeat split.
  - intros s v rest H. cbn [scan_once] in H.
    destruct s as [|c s1]; [discriminate|].
    destruct (char_eqb c dquote).
    { destruct (scanstring s1) as [[k r]|] eqn:E; [|discriminate].
      simpl in H. injection H as _ <-.
      apply scanstring_length in E. simpl. lia. }
    destruct (c =? 123)%N.
    { destruct (skip_ws s1) as [|d s2] eqn:E; [discriminate|].
      apply skip_ws_cons_length in E.
      destruct (d =? 125)%N.
      - injection H as _ <-. simpl. lia.
      - destruct (char_eqb d dquote); [|discriminate].
        apply IHobj in H. simpl. lia. }
    destruct (c =? 91)%N.
    { destruct (skip_ws s1) as [|d s2] eqn:E; [discriminate|].
      pose proof (skip_ws_length s1) as L. rewrite E in L.
      destruct (d =? 93)%N.
      - injection H as _ <-. simpl in *. lia.
      - apply IHarr in H. simpl in *. lia. }
    destruct (starts_with (u "null") (c :: s1)).
    { injection H as _ <-. exact (skipn_cons_length 3 c s1). }
    destruct (starts_with (u "true") (c :: s1)).
    { injection H as _ <-. exact (skipn_cons_length 3 c s1). }
    destruct (starts_with (u "false") (c :: s1)).
    { injection H as _ <-. exact (skipn_cons_length 4 c s1). }
    destruct (match_number (c :: s1)) as [[v' r]|] eqn:E.
    { injection H as _ <-. apply match_number_length in E. exact E. }
    destruct (starts_with (u "NaN") (c :: s1)).
    { injection H as _ <-. exact (skipn_cons_length 2 c s1). }
    destruct (starts_with (u "Infinity") (c :: s1)).
    { injection H as _ <-. exact (skipn_cons_length 7 c s1). }
    destruct (starts_with (u "-Infinity") (c :: s1)); [|discriminate].
    injection H as _ <-. exact (skipn_cons_length 8 c s1).
  - intros s pairs v rest H. cbn [object_pairs] in H.
    destruct (scanstring s) as [[k r]|] eqn:E; [|discriminate].
    apply scanstring_length in E. cbn [bind fst snd] in H.
    destruct (skip_ws r) as [|c s1] eqn:E1; [discriminate|].
    apply skip_ws_cons_length in E1.
    destruct (negb (c =? 58)%N); [discriminate|].
    destruct (scan_once b (skip_ws s1)) as [[v1 r1]|] eqn:E2; [|discriminate].
    apply IHscan in E2. pose proof (skip_ws_length s1) as L1.
    cbn [bind fst snd] in H.
    destruct (skip_ws r1) as [|d s2] eqn:E3; [discriminate|].
    apply skip_ws_cons_length in E3.
    destruct (d =? 125)%N.
    { injection H as _ <-. lia. }
    destruct (negb (char_eqb d comma)); [discriminate|].
    destruct (skip_ws s2) as [|q s3] eqn:E4; [discriminate|].
    apply skip_ws_cons_length in E4.
    destruct (char_eqb q dquote); [|discriminate].
    apply IHobj in H. lia.
  - intros s values v rest H. cbn [array_items] in H.
    destruct (scan_once b s) as [[v1 r1]|] eqn:E2; [|discriminate].
    apply IHscan in E2. cbn [bind fst snd] in H.
    destruct (skip_ws r1) as [|d s1] eqn:E3; [discriminate|].
    apply skip_ws_cons_length in E3.
    destruct (d =? 93)%N.
    { injection H as _ <-. lia. }
    destruct (negb (char_eqb d comma)); [discriminate|].
    apply IHarr in H. pose proof (skip_ws_length s1). lia.
Qed.

(** With a budget of twice the length of the text and one more, the
    decoder never runs out. *)
Lemma decoder_budget (budget : nat) :
  (forall s, (2 * List.length s + 1 <= budget)%nat ->
             scan_once budget s <> Raise Exhausted)
  /\ (forall s pairs, (2 * List.length s + 2 <= budget)%nat ->
                      object_pairs budget s pairs <> Raise Exhausted)
  /\ (forall s values, (2 * List.length s + 2 <= budget)%nat ->
                       array_items budget s values <> Raise Exhausted).
Proof.
  induction budget as [|b [IHscan [IHobj IHarr]]];
    [repeat split; intros; lia|].
  repeat split.
  - intros s Hb. cbn [scan_once].
    destruct s as [|c s1]; [discriminate|]. cbn [List.length] in Hb.
    destruct (char_eqb c dquote).
    { pose proof (scanstring_budget s1) as Hs.
      destruct (scanstring s1) as [[k r]|e]; [discriminate|].
      simpl. congruence. }
    destruct (c =? 123)%N.
    { destruct (skip_ws s1) as [|d s2] eqn:E; [discriminate|].
      apply skip_ws_cons_length in E.
      destruct (d =? 125)%N; [discriminate|].
      destruct (char_eqb d dquote); [|discriminate].
      apply IHobj. lia. }
    destruct (c =? 91)%N.
    { destruct (skip_ws s1) as [|d s2] eqn:E; [discriminate|].
      pose proof (skip_ws_length s1) as L. rewrite E in L.
      destruct (d =? 93)%N; [discriminate|].
      apply IHarr. simpl in *. lia. }
    destruct (starts_with (u "null") (c :: s1)); [discriminate|].
    destruct (starts_with (u "true") (c :: s1)); [discriminate|].
    destruct (starts_with (u "false") (c :: s1)); [discriminate|].
    destruct (match_number (c :: s1)) as [[v' r]|]; [discriminate|].
    destruct (starts_with (u "NaN") (c :: s1)); [discriminate|].
    destruct (starts_with (u "Infinity") (c :: s1)); [discriminate|].
    destruct (starts_with (u "-Infinity") (c :: s1)); discriminate.
  - intros s pairs Hb. cbn [object_pairs].
    pose proof (scanstring_budget s) as Hs.
    destruct (scanstring s) as [[k r]|e] eqn:E; [|simpl; congruence].
    apply scanstring_length in E. cbn [bind fst snd].
    destruct (skip_ws r) as [|c s1] eqn:E1; [discriminate|].
    apply skip_ws_cons_length in E1.
    destruct (negb (c =? 58)%N); [discriminate|].
    pose proof (skip_ws_length s1) as L1.
    assert (Hv : scan_once b (skip_ws s1) <> Raise Exhausted)
      by (apply IHscan; lia).
    destruct (scan_once b (skip_ws s1)) as [[v1 r1]|e] eqn:E2;
      [|simpl; congruence].
    apply (proj1 (decoder_lengths b)) in E2. cbn [bind fst snd].
    destruct (skip_ws r1) as [|d s2] eqn:E3; [discriminate|].
    apply skip_ws_cons_length in E3.
    destruct (d =? 125)%N; [discriminate|].
    destruct (negb (char_eqb d comma)); [discriminate|].
    destruct (skip_ws s2) as [|q s3] eqn:E4; [discriminate|].
    apply skip_ws_cons_length in E4.
    destruct (char_eqb q dquote); [|discriminate].
    apply IHobj. lia.
  - intros s values Hb. cbn [array_items].
    assert (Hv : scan_once b s <> Raise Exhausted) by (apply IHscan; lia).
    destruct (scan_once b s) as [[v1 r1]|e] eqn:E2; [|simpl; congruence].
    apply (proj1 (decoder_lengths b)) in E2. cbn [bind fst snd].
    destruct (skip_ws r1) as [|d s1] eqn:E3; [discriminate|].
    apply skip_ws_cons_length in E3.
    destruct (d =? 93)%N; [discriminate|].
    destruct (negb (char_eqb d comma)); [discriminate|].
    apply IHarr. pose proof (skip_ws_length s1). lia.
Qed.

(** [json.loads] never reports an exhausted budget: what it raises is a
    [JSONDecodeError]. *)
Lemma json_loads_budget (text : str) : json_loads text <> Raise Exhausted.
Proof.
  unfold json_loads.
  assert (H : (r <- scan_once (2 * List.length (skip_ws text) + 1)
                      (skip_ws text) ;;
               match skip_ws (snd r) with
               | [] => Ok (fst r)
               | _ :: _ => Raise JSONDecodeError
               end) <> Raise Exhausted).
  { pose proof (proj1 (decoder_budget _) (skip_ws text) (le_n _)) as Hs.
    destruct (scan_once _ (skip_ws text)) as [r|e]; [|simpl; congruence].
    simpl. destruct (skip_ws (snd r)); discriminate. }
  destruct text as [|c t]; [exact H|].
  destruct c as [|p]; [exact H|].
  repeat (destruct p as [p|p|]; try exact H; try discriminate).
Qed.

(** ** The decoder builds well-formed documents *)

Lemma match_number_wf (s : str) (v : json) (rest : str) :
  match_number s = Some (v, rest) -> wf_json v = true.
Proof.
  unfold match_number.
  destruct (if match s with c :: _ => (c =? 45)%N | [] => false end
            then tl s else s) as [|c s2]; [discriminate|].
  destruct (negb (is_digit c)); [discriminate|].
  cbv zeta.
  match goal with
  | |- match ?F with [] => match ?E with _ => _ end | _ => _ end = _ -> _ =>
      destruct F; destruct E as [[e s7]|]
  end; intros H; injection H as <- _; reflexivity.
Qed.

Lemma dict_set_keys_fresh (d : dict) (k k' : str) (v : json) :
  str_eqb k' k = false ->
  existsb (str_eqb k') (keys (dict_set d k v))
  = existsb (str_eqb k') (keys d).
Proof.
  intros Hne. induction d as [|[k0 v0] d IH]; simpl.
  - rewrite Hne. reflexivity.
  - destruct (str_eqb k k0) eqn:E; simpl; [reflexivity|].
    rewrite IH. reflexivity.
Qed.

Lemma dict_set_distinct (d : dict) (k : str) (v : json) :
  distinct (keys d) = true -> distinct (keys (dict_set d k v)) = true.
Proof.
  induction d as [|[k0 v0] d IH]; simpl; [reflexivity|].
  intros H. apply andb_true_iff in H as [Hfresh Hd].
  destruct (str_eqb k k0) eqn:E; simpl.
  - rewrite Hfresh, Hd. reflexivity.
  - rewrite dict_set_keys_fresh, Hfresh, (IH Hd); [reflexivity|].
    rewrite str_eqb_sym. exact E.
Qed.

Lemma wf_json_obj_iff (items : dict) :
  wf_json (JObj items) = true
  <-> distinct (keys items) = true
      /\ Forall (fun kv => wf_json (snd kv) = true) items.
Proof.
  split; [apply wf_json_obj|]. intros [Hd Hall]. simpl.
  rewrite Hd. simpl. clear Hd.
  induction Hall as [|[k v] items Hv _ IH]; [reflexivity|].
  simpl in Hv. rewrite Hv. exact IH.
Qed.

Lemma wf_json_arr_iff (elems : list json) :
  wf_json (JArr elems) = true <-> Forall (fun x => wf_json x = true) elems.
Proof.
  split; [apply wf_json_arr|]. intros Hall. simpl.
  induction Hall as [|x elems Hx _ IH]; [reflexivity|].
  rewrite Hx. exact IH.
Qed.

Lemma dict_set_wf (d : dict) (k : str) (v : json) :
  wf_json (JObj d) = true -> wf_json v = true ->
  wf_json (JObj (dict_set d k v)) = true.
Proof.
  rewrite !wf_json_obj_iff. intros [Hd Hall] Hv. split.
  - apply dict_set_distinct, Hd.
  - clear Hd. induction Hall as [|[k0 v0] d H0 Hall IH]; simpl.
    + constructor; [exact Hv|constructor].
    + destruct (str_eqb k k0); constructor; assumption.
Qed.

Lemma append_wf (values : list json) (v : json) :
  wf_json (JArr values) = true -> wf_json v = true ->
  wf_json (JArr (values ++ [v])) = true.
Proof.
  rewrite !wf_json_arr_iff. intros Hall Hv.
  apply Forall_app. split; [exact Hall|]. constructor; [exact Hv|constructor].
Qed.

Lemma decoder_wf (budget : nat) :
  (forall s v rest, scan_once budget s = Ok (v, rest) -> wf_json v = true)
  /\ (forall s pairs v rest,
         wf_json (JObj pairs) = true ->
         object_pairs budget s pairs = Ok (v, rest) -> wf_json v = true)
  /\ (forall s values v rest,
         wf_json (JArr values) = true ->
         array_items budget s values = Ok (v, rest) -> wf_json v = true).
Proof.
  induction budget as [|b [IHscan [IHobj IHarr]]];
    [repeat split; intros; discriminate|].
  repeat split.
  - intros s v rest H. cbn [scan_once] in H.
    destruct s as [|c s1]; [discriminate|].
    destruct (char_eqb c dquote).
    { destruct (scanstring s1) as [[k r]|]; [|discriminate].
      simpl in H. injection H as <- _. reflexivity. }
    destruct (c =? 123)%N.
    { destruct (skip_ws s1) as [|d s2]; [discriminate|].
      destruct (d =? 125)%N; [injection H as <- _; reflexivity|].
      destruct (char_eqb d dquote); [|discriminate].
      apply IHobj in H; [exact H|reflexivity]. }
    destruct (c =? 91)%N.
    { destruct (skip_ws s1) as [|d s2]; [discriminate|].
      destruct (d =? 93)%N; [injection H as <- _; reflexivity|].
      apply IHarr in H; [exact H|reflexivity]. }
    destruct (starts_with (u "null") (c :: s1));
      [injection H as <- _; reflexivity|].
    destruct (starts_with (u "true") (c :: s1));
      [injection H as <- _; reflexivity|].
    destruct (starts_with (u "false") (c :: s1));
      [injection H as <- _; reflexivity|].
    destruct (match_number (c :: s1)) as [[v' r]|] eqn:E.
    { injection H as <- _. apply match_number_wf in E. exact E. }
    destruct (starts_with (u "NaN") (c :: s1));
      [injection H as <- _; reflexivity|].
    destruct (starts_with (u "Infinity") (c :: s1));
      [injection H as <- _; reflexivity|].
    destruct (starts_with (u "-Infinity") (c :: s1)); [|discriminate].
    injection H as <- _. reflexivity.
  - intros s pairs v rest Hwf H. cbn [object_pairs] in H.
    destruct (scanstring s) as [[k r]|]; [|discriminate].
    cbn [bind fst snd] in H.
    destruct (skip_ws r) as [|c s1]; [discriminate|].
    destruct (negb (c =? 58)%N); [discriminate|].
    destruct (scan_once b (skip_ws s1)) as [[v1 r1]|] eqn:E2; [|discriminate].
    apply IHscan in E2. cbn [bind fst snd] in H.
    pose proof (dict_set_wf pairs k v1 Hwf E2) as Hwf'.
    destruct (skip_ws r1) as [|d s2]; [discriminate|].
    destruct (d =? 125)%N; [injection H as <- _; exact Hwf'|].
    destruct (negb (char_eqb d comma)); [discriminate|].
    destruct (skip_ws s2) as [|q s3]; [discriminate|].
    destruct (char_eqb q dquote); [|discriminate].
    apply IHobj in H; assumption.
  - intros s values v rest Hwf H. cbn [array_items] in H.
    destruct (scan_once b s) as [[v1 r1]|] eqn:E2; [|discriminate].
    apply IHscan in E2. cbn [bind fst snd] in H.
    pose proof (append_wf values v1 Hwf E2) as Hwf'.
    destruct (skip_ws r1) as [|d s1]; [discriminate|].
    destruct (d =? 93)%N; [injection H as <- _; exact Hwf'|].
    destruct (negb (char_eqb d comma)); [discriminate|].
    apply IHarr in H; assumption.
Qed.

(** What [json.loads] returns keeps the invariant of dicts. *)
Lemma json_loads_wf (text : str) (v : json) :
  json_loads text = Ok v -> wf_json v = true.
Proof.
  unfold json_loads.
  assert (H : (r <- scan_once (2 * List.length (skip_ws text) + 1)
                      (skip_ws text) ;;
               match skip_ws (snd r) with
               | [] => Ok (fst r)
               | _ :: _ => Raise JSONDecodeError
               end) = Ok v -> wf_json v = true).
  { destruct (scan_once _ (skip_ws text)) as [[v1 r1]|e] eqn:E;
      [|discriminate].
    apply (proj1 (decoder_wf _)) in E. cbn [bind fst snd].
    destruct (skip_ws r1); [|discriminate].
    intros H. injection H as <-. exact E. }
  destruct text as [|c t]; [exact H|].
  destruct c as [|p]; [exact H|].
  repeat (destruct p as [p|p|]; try exact H; try discriminate).
Qed.

(** So does [parse_jsonc]: the documents [main] hands to [find_orphaned]
    satisfy the hypothesis the properties of [find_orphaned] make on
    dicts. *)
Lemma parse_jsonc_wf (path : Type) (fs : files path) (p : path) (v : json) :
  parse_jsonc path fs p = Ok v -> wf_json v = true.
Proof.
  unfold parse_jsonc. destruct (fs p) as [text|].
  - apply json_loads_wf.
  - intros H. injection H as <-. reflexivity.
Qed.

(** ** Examples of the decoder and of the whole escaper *)

(** A key met twice keeps its place and takes the last value. *)
Example loads_repeated_key :
  json_loads (u "{" ++ quoted "a" ++ u ": 1, " ++ quoted "b" ++ u ": 2, "
                ++ quoted "a" ++ u ": 3}")
  = Ok (JObj [(u "a", JInt 3); (u "b", JInt 2)]).
Proof. reflexivity. Qed.

(** A trailing comma that the cleaning left in place is an error. *)
Example loads_trailing_comma : json_loads (u "[1, ,]") = Raise JSONDecodeError.
Proof. reflexivity. Qed.

(** A comment marker inside a string is cut like any other. *)
Example clean_cuts_inside_strings :
  clean_jsonc (u "{" ++ quoted "url" ++ u ": " ++ quoted "http://x" ++ u "}")
  = u "{" ++ quoted "url" ++ u ": " ++ [dquote] ++ u "http:".
Proof. reflexivity. Qed.

Example loads_numbers :
  json_loads (u "[0.5, -2, 1e2, true]")
  = Ok (JArr [JFloat (FFin false 4503599627370496 (-53)); JInt (-2);
              JFloat (FFin false 7036874417766400 (-46)); JBool true]).
Proof. vm_compute. reflexivity. Qed.

(** [1], [1.0] and [True] are equal for [in]. *)
Example one_is_true :
  not_in [JInt 1; JFloat (FFin false 4503599627370496 (-52)); JBool true; JInt 2]
    (JArr [JBool true])
  = Ok [JInt 2].
Proof. vm_compute. reflexivity. Qed.

(** The escaper writes one line for each line it reads, each on its
    own. *)
Lemma escaper_app (lines1 lines2 : list str) :
  escaper (lines1 ++ lines2) = escaper lines1 ++ escaper lines2.
Proof.
  induction lines1 as [|line lines1 IH]; [reflexivity|].
  simpl. rewrite IH, <- !app_assoc. reflexivity.
Qed.

Example escaper_two_lines :
  escaper [u "a.b*c" ++ [newline]; u "a/b "]
  = u "a\.b\*c" ++ [newline] ++ u "a\/b" ++ [newline].
Proof. reflexivity. Qed.

(** * Further properties of the code *)

(** ** [find_orphaned]: the report as a list of entries *)

Lemma dict_set_fresh (d : dict) (k : str) (v : json) :
  dict_get k d = None -> dict_set d k v = d ++ [(k, v)].
Proof.
  induction d as [|[k0 v0] d IH]; simpl; [reflexivity|].
  destruct (str_eqb k k0); [discriminate|].
  intros H. rewrite (IH H). reflexivity.
Qed.

Lemma dict_get_app (d e : dict) (k : str) :
  dict_get k (d ++ e) = match dict_get k d with
                        | Some v => Some v
                        | None => dict_get k e
                        end.
Proof.
  induction d as [|[k0 v0] d IH]; simpl; [reflexivity|].
  destruct (str_eqb k k0); [reflexivity|exact IH].
Qed.

Lemma existsb_key_in_items (items : dict) (k : str) :
  dict_get k items = None -> existsb (str_eqb k) (keys items) = false.
Proof.
  induction items as [|[k0 v0] items IH]; simpl; [reflexivity|].
  destruct (str_eqb k k0); [discriminate|]. exact IH.
Qed.

(** With an [orphaned] that has none of the keys still to visit, the loop
    appends its entries to it. *)
Lemma orphan_loop_entries base local_settings items :
  forall orphaned,
    distinct (keys items) = true ->
    (forall k, existsb (str_eqb k) (keys items) = true ->
               dict_get k orphaned = None) ->
    orphan_loop base local_settings items orphaned
    = es <- entries base local_settings items ;; Ok (orphaned ++ es).
Proof.
  induction items as [|[k v] items IH]; intros orphaned Hd Hacc.
  - simpl. rewrite app_nil_r. reflexivity.
  - rewrite orphan_loop_step. cbn [entries].
    simpl in Hd. apply andb_true_iff in Hd as [Hfresh Hd].
    apply negb_true_iff in Hfresh.
    destruct (entry base local_settings k v) as [[x|]|]; cbn [bind];
      [| |reflexivity].
    + rewrite dict_set_fresh
        by (apply Hacc; simpl; rewrite str_eqb_refl; reflexivity).
      rewrite IH; [|exact Hd|].
      * destruct (entries base local_settings items); cbn [bind];
          [|reflexivity].
        rewrite <- app_assoc. reflexivity.
      * intros k' Hk'. rewrite dict_get_app.
        rewrite Hacc by (simpl; rewrite Hk'; apply orb_true_r).
        simpl. destruct (str_eqb k' k) eqn:E; [|reflexivity].
        apply str_eqb_eq in E. subst k'. congruence.
    + rewrite IH; [|exact Hd|].
      * destruct (entries base local_settings items); reflexivity.
      * intros k' Hk'. apply Hacc. simpl. rewrite Hk'. apply orb_true_r.
Qed.

Lemma find_orphaned_entries items base local_settings :
  distinct (keys items) = true ->
  find_orphaned (JObj items) base local_settings
  = entries base local_settings items.
Proof.
  intros Hd. rewrite find_orphaned_loop, orphan_loop_entries;
    [|exact Hd|reflexivity].
  destruct (entries base local_settings items); reflexivity.
Qed.

Lemma subseq_refl {A : Type} (l : list A) : subseq l l.
Proof. induction l; constructor; assumption. Qed.

Lemma subseq_nil_l {A : Type} (l : list A) : subseq [] l.
Proof. induction l; constructor; assumption. Qed.

Lemma subseq_in {A : Type} (a b : list A) (x : A) :
  subseq a b -> In x a -> In x b.
Proof.
  induction 1 as [|y a b _ IH|y a b _ IH]; simpl; intros Hin.
  - exact Hin.
  - destruct Hin as [->|Hin]; [left; reflexivity|right; apply IH, Hin].
  - right. apply IH, Hin.
Qed.

Lemma existsb_subseq (a b : list str) (k : str) :
  subseq a b ->
  existsb (str_eqb k) b = false -> existsb (str_eqb k) a = false.
Proof.
  induction 1 as [|y a b _ IH|y a b _ IH]; simpl; intros H.
  - reflexivity.
  - apply orb_false_iff in H as [H1 H2]. rewrite H1. apply IH, H2.
  - apply orb_false_iff in H as [_ H2]. apply IH, H2.
Qed.

Lemma distinct_subseq (a b : list str) :
  subseq a b -> distinct b = true -> distinct a = true.
Proof.
  induction 1 as [|y a b Hs IH|y a b Hs IH]; simpl; intros H.
  - reflexivity.
  - apply andb_true_iff in H as [Hf Hd]. apply negb_true_iff in Hf.
    rewrite (existsb_subseq _ _ _ Hs Hf). simpl. apply IH, Hd.
  - apply andb_true_iff in H as [_ Hd]. apply IH, Hd.
Qed.

Lemma entries_keys base local_settings items :
  forall es, entries base local_settings items = Ok es ->
             subseq (keys es) (keys items).
Proof.
  induction items as [|[k v] items IH]; intros es H; cbn [entries] in H.
  - injection H as <-. constructor.
  - destruct (entry base local_settings k v) as [e|]; [|discriminate].
    destruct (entries base local_settings items) as [es'|]; [|discriminate].
    cbn [bind] in H. injection H as <-.
    destruct e; simpl; constructor; apply IH; reflexivity.
Qed.

Lemma not_in_subseq (value : list json) (expected : json) :
  forall o, not_in value expected = Ok o -> subseq o value.
Proof.
  induction value as [|elem value IH]; intros o H; cbn [not_in] in H.
  - injection H as <-. constructor.
  - destruct (py_in elem expected) as [found|]; [|discriminate].
    destruct (not_in value expected) as [rest|]; [|discriminate].
    cbn [bind] in H. injection H as <-.
    destruct found; constructor; apply IH; reflexivity.
Qed.

(** Searching again for the elements that were not found finds none of
    them. *)
Lemma not_in_again (value : list json) (expected : json) :
  forall o, not_in value expected = Ok o -> not_in o expected = Ok o.
Proof.
  induction value as [|elem value IH]; intros o H; cbn [not_in] in H.
  - injection H as <-. reflexivity.
  - destruct (py_in elem expected) as [found|] eqn:Hin; [|discriminate].
    destruct (not_in value expected) as [rest|]; [|discriminate].
    cbn [bind] in H. injection H as <-.
    specialize (IH rest eq_refl).
    destruct found; [exact IH|].
    cbn [not_in]. rewrite Hin, IH. reflexivity.
Qed.

Lemma explained_not_orphan key base local_settings :
  explained key base local_settings = true ->
  negb (key_in key base) && negb (key_in key local_settings) = false.
Proof.
  unfold explained.
  destruct (key_in key base), (key_in key local_settings);
    try reflexivity; discriminate.
Qed.

(** ** [find_orphaned]: what the report holds *)

(** X1: the keys of the report are keys of [settings], in the order
    [settings] has them. *)
Theorem report_keys_follow_settings items base local_settings r :
  distinct (keys items) = true ->
  find_orphaned (JObj items) base local_settings = Ok r ->
  subseq (keys r) (keys items)
  /\ forall key, dict_get key items = None -> dict_get key r = None.
Proof.
  intros Hd Hr. rewrite find_orphaned_entries in Hr by exact Hd.
  pose proof (entries_keys _ _ _ _ Hr) as Hs. split; [exact Hs|].
  intros key Hk. apply dict_get_absent.
  apply (existsb_subseq _ _ _ Hs), existsb_key_in_items, Hk.
Qed.

Lemma report_keys_follow_settings_witness :
  subseq (keys [(u "x", JInt 5); (u "z", JArr [JInt 2])])
    (keys [(u "x", JInt 5); (u "a", JInt 1); (u "z", JArr [JInt 1; JInt 2])])
  /\ forall key,
      dict_get key [(u "x", JInt 5); (u "a", JInt 1);
                    (u "z", JArr [JInt 1; JInt 2])] = None ->
      dict_get key [(u "x", JInt 5); (u "z", JArr [JInt 2])] = None.
Proof.
  apply (report_keys_follow_settings
           [(u "x", JInt 5); (u "a", JInt 1); (u "z", JArr [JInt 1; JInt 2])]
           (JObj [(u "a", JInt 7); (u "z", JArr [JInt 1])]) (JNull));
    reflexivity.
Defined.

(** X2: an explained key whose value is neither a mapping nor a sequence
    is never reported, whatever the value [base] or [local] has for it. *)
Theorem explained_scalar_is_not_reported
  items base local_settings key value r :
  distinct (keys items) = true ->
  dict_get key items = Some value ->
  is_scalar value = true ->
  explained key base local_settings = true ->
  find_orphaned (JObj items) base local_settings = Ok r ->
  dict_get key r = None.
Proof.
  intros Hd Hget Hsc Hex Hr.
  pose proof (find_orphaned_get _ _ _ _ key Hd Hr) as H.
  rewrite Hget in H. destruct H as [e [He Hg]].
  unfold entry in He. rewrite (explained_not_orphan _ _ _ Hex) in He.
  destruct value; try discriminate Hsc; injection He as <-; exact Hg.
Qed.

Lemma explained_scalar_is_not_reported_witness :
  dict_get (u "fontSize") [(u "x", JInt 1)] = None.
Proof.
  apply (explained_scalar_is_not_reported
           [(u "fontSize", JInt 14); (u "x", JInt 1)]
           (JObj [(u "fontSize", JStr (u "large"))]) (JObj [])
           (u "fontSize") (JInt 14)); reflexivity.
Defined.

Lemma subseq_forall {A : Type} (P : A -> Prop) (a b : list A) :
  subseq a b -> Forall P b -> Forall P a.
Proof.
  induction 1 as [|y a b _ IH|y a b _ IH]; intros H.
  - constructor.
  - inversion H; subst. constructor; [assumption|apply IH; assumption].
  - inversion H; subst. apply IH; assumption.
Qed.

(** What a turn stores for a well-formed value is well-formed, once the
    reports of the mappings below are. *)
Lemma entry_wf base local_settings key value x :
  wf_json value = true ->
  (forall b l r, find_orphaned value b l = Ok r -> wf_json (JObj r) = true) ->
  entry base local_settings key value = Ok (Some x) ->
  wf_json x = true.
Proof.
  intros Hwf IH. unfold entry.
  destruct (negb (key_in key base) && negb (key_in key local_settings)).
  { intros H. injection H as <-. exact Hwf. }
  destruct value; try discriminate.
  - destruct (not_in elems _) as [o|] eqn:E; [|discriminate].
    cbn [bind]. destruct (truthy o); [|discriminate].
    intros H. injection H as <-.
    apply wf_json_arr_iff. apply not_in_subseq in E.
    apply (subseq_forall _ _ _ E), wf_json_arr, Hwf.
  - destruct (find_orphaned (JObj items) _ _) as [n|] eqn:E; [|discriminate].
    cbn [bind]. destruct (truthy n); [|discriminate].
    intros H. injection H as <-. apply (IH _ _ _ E).
Qed.

Lemma entries_wf base local_settings items :
  Forall (fun kv => wf_json (snd kv) = true) items ->
  Forall (fun kv => forall b l r, find_orphaned (snd kv) b l = Ok r ->
                                  wf_json (JObj r) = true) items ->
  forall es, entries base local_settings items = Ok es ->
             Forall (fun kv => wf_json (snd kv) = true) es.
Proof.
  induction items as [|[k v] items IHl]; intros Hwf IH es H;
    cbn [entries] in H.
  - injection H as <-. constructor.
  - inversion Hwf; subst. inversion IH; subst. cbn [snd] in *.
    destruct (entry base local_settings k v) as [e|] eqn:He; [|discriminate].
    destruct (entries base local_settings items) as [es'|]; [|discriminate].
    cbn [bind] in H. injection H as <-.
    specialize (IHl ltac:(assumption) ltac:(assumption) es' eq_refl).
    destruct e as [x|]; [|exact IHl].
    constructor; [|exact IHl]. cbn [snd].
    eapply entry_wf; eauto.
Qed.

(** X3: the report of a well-formed document is a well-formed mapping: no
    key twice, at any depth. *)
Theorem report_is_well_formed (settings : json) :
  forall base local_settings r,
    wf_json settings = true ->
    find_orphaned settings base local_settings = Ok r ->
    wf_json (JObj r) = true.
Proof.
  induction settings as [| b | n | f | t | elems IH | items IH]
    using json_induction; intros base local_settings r Hwf Hr;
    try (injection Hr as <-; reflexivity).
  apply wf_json_obj in Hwf as [Hd Hwf].
  rewrite find_orphaned_entries in Hr by exact Hd.
  apply wf_json_obj_iff. split.
  - apply (distinct_subseq _ _ (entries_keys _ _ _ _ Hr) Hd).
  - apply (entries_wf _ _ _ Hwf) in Hr; [exact Hr|].
    rewrite Forall_forall in IH, Hwf |- *.
    intros kv Hin b l r' Hr'. apply (IH kv Hin b l r' (Hwf kv Hin) Hr').
Qed.

Lemma report_is_well_formed_witness :
  wf_json (JObj [(u "editor", JObj [(u "tabSize", JInt 2)]);
                 (u "x", JArr [JObj [(u "k", JNull)]])]) = true.
Proof.
  apply (report_is_well_formed
           (JObj [(u "editor",
                   JObj [(u "fontSize", JInt 14); (u "tabSize", JInt 2)]);
                  (u "x", JArr [JObj [(u "k", JNull)]])])
           (JObj [(u "editor", JObj [(u "fontSize", JInt 14)])])
           (JObj [])); reflexivity.
Defined.

Lemma entries_unexplained base local_settings items :
  forallb (fun kv => negb (explained (fst kv) base local_settings)) items
  = true ->
  entries base local_settings items = Ok items.
Proof.
  induction items as [|[k v] items IH]; [reflexivity|].
  cbn [forallb fst]. intros Hall. apply andb_true_iff in Hall as [Hk Hall].
  cbn [entries]. rewrite (IH Hall).
  unfold entry. unfold explained in Hk.
  replace (negb (key_in k base) && negb (key_in k local_settings)) with true
    by (destruct (key_in k base), (key_in k local_settings);
        try reflexivity; discriminate).
  reflexivity.
Qed.

(** X4: when neither [base] nor [local] has any key of [settings] (both
    empty, or not mappings at all), the report is the whole of
    [settings]. *)
Theorem nothing_explained_reports_everything items base local_settings :
  distinct (keys items) = true ->
  forallb (fun kv => negb (explained (fst kv) base local_settings)) items
  = true ->
  find_orphaned (JObj items) base local_settings = Ok items.
Proof.
  intros Hd Hall. rewrite find_orphaned_entries by exact Hd.
  apply entries_unexplained, Hall.
Qed.

Lemma nothing_explained_reports_everything_witness :
  find_orphaned
    (JObj [(u "a", JInt 1); (u "b", JObj [(u "c", JArr [])])])
    (JArr [JStr (u "a")]) (JObj [(u "c", JInt 0)])
  = Ok [(u "a", JInt 1); (u "b", JObj [(u "c", JArr [])])].
Proof.
  apply nothing_explained_reports_everything; reflexivity.
Defined.

Lemma entry_again base local_settings key value x :
  (forall b l r, find_orphaned value b l = Ok r ->
                 find_orphaned (JObj r) b l = Ok r) ->
  entry base local_settings key value = Ok (Some x) ->
  entry base local_settings key x = Ok (Some x).
Proof.
  intros IH. unfold entry.
  destruct (negb (key_in key base) && negb (key_in key local_settings)).
  { intros H. injection H as <-. reflexivity. }
  destruct value; try discriminate.
  - destruct (not_in elems _) as [o|] eqn:E; [|discriminate].
    cbn [bind]. destruct (truthy o) eqn:Ho; [|discriminate].
    intros H. injection H as <-.
    rewrite (not_in_again _ _ _ E). cbn [bind]. rewrite Ho. reflexivity.
  - destruct (find_orphaned (JObj items) _ _) as [n|] eqn:E; [|discriminate].
    cbn [bind]. destruct (truthy n) eqn:Hn; [|discriminate].
    intros H. injection H as <-.
    rewrite (IH _ _ _ E). cbn [bind]. rewrite Hn. reflexivity.
Qed.

Lemma entries_again base local_settings items :
  Forall (fun kv => forall b l r, find_orphaned (snd kv) b l = Ok r ->
                                  find_orphaned (JObj r) b l = Ok r) items ->
  forall es, entries base local_settings items = Ok es ->
             entries base local_settings es = Ok es.
Proof.
  induction items as [|[k v] items IHl]; intros IH es H; cbn [entries] in H.
  - injection H as <-. reflexivity.
  - inversion IH as [|? ? Hv Hvs]; subst. cbn [snd] in Hv.
    destruct (entry base local_settings k v) as [e|] eqn:He; [|discriminate].
    destruct (entries base local_settings items) as [es'|]; [|discriminate].
    cbn [bind] in H. injection H as <-.
    specialize (IHl Hvs es' eq_refl).
    destruct e as [x|]; [|exact IHl].
    cbn [entries]. rewrite (entry_again _ _ _ _ _ Hv He), IHl. reflexivity.
Qed.

(** X6: the diff of a report against the same [base] and [local] is the
    report itself. *)
Theorem report_of_report_is_report (settings : json) :
  forall base local_settings r,
    wf_json settings = true ->
    find_orphaned settings base local_settings = Ok r ->
    find_orphaned (JObj r) base local_settings = Ok r.
Proof.
  induction settings as [| b | n | f | t | elems IH | items IH]
    using json_induction; intros base local_settings r Hwf Hr;
    try (injection Hr as <-; reflexivity).
  apply wf_json_obj in Hwf as [Hd Hwf].
  rewrite find_orphaned_entries in Hr by exact Hd.
  rewrite find_orphaned_entries
    by (apply (distinct_subseq _ _ (entries_keys _ _ _ _ Hr) Hd)).
  apply (entries_again _ _ items); [|exact Hr].
  rewrite Forall_forall in IH, Hwf |- *.
  intros kv Hin b l r' Hr'. apply (IH kv Hin b l r' (Hwf kv Hin) Hr').
Qed.

Lemma report_of_report_is_report_witness :
  find_orphaned
    (JObj [(u "editor", JObj [(u "tabSize", JInt 2)]);
           (u "exclude", JArr [JStr (u "c")]); (u "x", JInt 5)])
    (JObj [(u "editor", JObj [(u "fontSize", JInt 14)]);
           (u "exclude", JArr [JStr (u "a")]); (u "ok", JInt 0)])
    (JObj [])
  = Ok [(u "editor", JObj [(u "tabSize", JInt 2)]);
        (u "exclude", JArr [JStr (u "c")]); (u "x", JInt 5)].
Proof.
  apply (report_of_report_is_report
           (JObj [(u "editor",
                   JObj [(u "fontSize", JInt 14); (u "tabSize", JInt 2)]);
                  (u "exclude", JArr [JStr (u "a"); JStr (u "c")]);
                  (u "ok", JInt 1); (u "x", JInt 5)]));
    reflexivity.
Defined.

(** X7: what the report has under an explained key is never empty: a
    mapping with at least one key when [settings] has a mapping there, a
    list of at least one element, taken in order from the sequence of
    [settings], when [settings] has a sequence there. *)
Theorem explained_key_reports_nonempty_container
  items base local_settings key value r x :
  distinct (keys items) = true ->
  dict_get key items = Some value ->
  explained key base local_settings = true ->
  find_orphaned (JObj items) base local_settings = Ok r ->
  dict_get key r = Some x ->
  nonempty_container x = true
  /\ match value with
     | JArr elems => exists o, x = JArr o /\ subseq o elems
     | JObj _ => is_mapping x = true
     | _ => False
     end.
Proof.
  intros Hd Hget Hex Hr Hx.
  pose proof (find_orphaned_get _ _ _ _ key Hd Hr) as H.
  rewrite Hget in H. destruct H as [e [He Hg]].
  rewrite Hx in Hg. subst e.
  unfold entry in He. rewrite (explained_not_orphan _ _ _ Hex) in He.
  destruct value as [| | | | | velems | vitems]; try discriminate.
  - destruct (not_in velems _) as [o|] eqn:E; [|discriminate].
    cbn [bind] in He. destruct (truthy o) eqn:Ho; [|discriminate].
    injection He as <-. split; [exact Ho|].
    exists o. split; [reflexivity|apply (not_in_subseq _ _ _ E)].
  - destruct (find_orphaned (JObj vitems) _ _) as [n|]; [|discriminate].
    cbn [bind] in He. destruct (truthy n) eqn:Hn; [|discriminate].
    injection He as <-. split; [exact Hn|reflexivity].
Qed.

Lemma explained_key_reports_nonempty_container_witness :
  nonempty_container (JArr [JStr (u "c")]) = true
  /\ exists o, JArr [JStr (u "c")] = JArr o
               /\ subseq o [JStr (u "a"); JStr (u "c")].
Proof.
  apply (explained_key_reports_nonempty_container
           [(u "exclude", JArr [JStr (u "a"); JStr (u "c")])]
           (JObj [(u "exclude", JArr [JStr (u "a")])]) (JObj [])
           (u "exclude") (JArr [JStr (u "a"); JStr (u "c")])
           [(u "exclude", JArr [JStr (u "c")])]); reflexivity.
Defined.

(** ** [parse_jsonc]: what the cleaning does to a text *)

Lemma subseq_trans {A : Type} (a b c : list A) :
  subseq a b -> subseq b c -> subseq a c.
Proof.
  intros Hab Hbc. revert a Hab.
  induction Hbc as [|x b c _ IH|x b c _ IH]; intros a Hab.
  - exact Hab.
  - inversion Hab; subst.
    + constructor. apply IH. assumption.
    + apply subseq_skip. apply IH. assumption.
  - apply subseq_skip. apply IH. exact Hab.
Qed.

Lemma sub_comments_subseq (text : str) :
  forall in_match, subseq (sub_comments in_match text) text.
Proof.
  induction text as [|c t IH]; intros in_match; [destruct in_match; constructor|].
  cbn [sub_comments]. destruct in_match.
  - destruct (char_eqb c newline); constructor; apply IH.
  - destruct t as [|d t'].
    + apply subseq_refl.
    + destruct (char_eqb c slash && char_eqb d slash); constructor; apply IH.
Qed.

Lemma sub_commas_subseq (text : str) :
  forall group1, subseq (sub_commas group1 text) text.
Proof.
  induction text as [|c t IH]; intros group1; [destruct group1; constructor|].
  cbn [sub_commas]. destruct group1 as [|n].
  - destruct (char_eqb c comma); [|constructor; apply IH].
    destruct (match_closer t); constructor; apply IH.
  - constructor. apply IH.
Qed.

Lemma sub_comments_count_newline (text : str) :
  forall in_match,
    count_char newline (sub_comments in_match text) = count_char newline text.
Proof.
  induction text as [|c t IH]; intros in_match; [destruct in_match; reflexivity|].
  cbn [sub_comments]. destruct in_match.
  - destruct (char_eqb c newline) eqn:Hc.
    + rewrite !count_char_cons, IH. reflexivity.
    + rewrite count_char_cons, IH.
      unfold char_eqb in *. rewrite N.eqb_sym, Hc. reflexivity.
  - destruct t as [|d t']; [reflexivity|].
    destruct (char_eqb c slash && char_eqb d slash) eqn:Hcd.
    + apply andb_true_iff in Hcd as [Hc _].
      rewrite IH, (count_char_cons newline c).
      apply slash_not_newline in Hc.
      unfold char_eqb in *. rewrite N.eqb_sym, Hc. reflexivity.
    + rewrite !(count_char_cons newline c), IH. reflexivity.
Qed.

Lemma sub_commas_count (x : char) (text : str) :
  char_eqb x comma = false ->
  forall group1,
    count_char x (sub_commas group1 text) = count_char x text.
Proof.
  intros Hx. induction text as [|c t IH]; intros group1;
    [destruct group1; reflexivity|].
  cbn [sub_commas]. destruct group1 as [|n].
  - destruct (char_eqb c comma) eqn:Hc.
    + unfold char_eqb in Hc. apply N.eqb_eq in Hc. subst c.
      rewrite (count_char_cons x comma), Hx.
      destruct (match_closer t).
      * apply IH.
      * rewrite count_char_cons, Hx, IH. reflexivity.
    + rewrite !count_char_cons, IH. reflexivity.
  - rewrite !count_char_cons, IH. reflexivity.
Qed.

(** X8: cleaning only deletes characters, and never a newline: the text
    handed to [json.loads] is the file with some characters left out, and
    its lines are the lines of the file. *)
Theorem cleaning_only_deletes (text : str) :
  subseq (clean_jsonc text) text
  /\ count_char newline (clean_jsonc text) = count_char newline text.
Proof.
  unfold clean_jsonc. split.
  - apply (subseq_trans _ (sub_comments false text)).
    + apply sub_commas_subseq.
    + apply sub_comments_subseq.
  - rewrite sub_commas_count by reflexivity.
    apply sub_comments_count_newline.
Qed.

Lemma has_comment_cons (c : char) (s : str) :
  has_comment (c :: s)
  = (char_eqb slash c && starts_with [slash] s) || has_comment s.
Proof. reflexivity. Qed.

Lemma starts_slash_cons (c : char) (s : str) :
  starts_with [slash] (c :: s) = char_eqb slash c.
Proof. simpl. apply andb_true_r. Qed.

Lemma char_eqb_sym (a b : char) : char_eqb a b = char_eqb b a.
Proof. unfold char_eqb. apply N.eqb_sym. Qed.

(** After the scan for comments no two slashes stand in a row; what is
    left starts with a slash only if the text did. *)
Lemma sub_comments_no_comment (text : str) :
  has_comment (sub_comments false text) = false
  /\ has_comment (sub_comments true text) = false
  /\ starts_with [slash] (sub_comments true text) = false
  /\ (starts_with [slash] (sub_comments false text) = true ->
      starts_with [slash] text = true).
Proof.
  induction text as [|c t (IH1 & IH2 & IH3 & IH4)]; [repeat split; auto|].
  repeat split.
  - destruct t as [|d t'];
      [cbn [sub_comments]; rewrite has_comment_cons; cbn [starts_with];
       rewrite andb_false_r; reflexivity|].
    rewrite sub_comments_outside.
    destruct (char_eqb c slash && char_eqb d slash) eqn:Hcd; [exact IH2|].
    rewrite has_comment_cons, IH1, orb_false_r.
    destruct (char_eqb slash c) eqn:Hc; [|reflexivity]. cbn [andb].
    destruct (starts_with [slash] (sub_comments false (d :: t'))) eqn:Hs;
      [|reflexivity].
    specialize (IH4 eq_refl). rewrite starts_slash_cons in IH4.
    rewrite (char_eqb_sym c), Hc, (char_eqb_sym d), IH4 in Hcd. discriminate.
  - cbn [sub_comments]. destruct (char_eqb c newline) eqn:Hc; [|exact IH2].
    rewrite has_comment_cons, IH1, orb_false_r.
    unfold char_eqb in Hc. apply N.eqb_eq in Hc. subst c. reflexivity.
  - cbn [sub_comments]. destruct (char_eqb c newline) eqn:Hc; [|exact IH3].
    rewrite starts_slash_cons.
    unfold char_eqb in Hc. apply N.eqb_eq in Hc. subst c. reflexivity.
  - destruct t as [|d t']; [intros H; exact H|].
    rewrite sub_comments_outside.
    destruct (char_eqb c slash && char_eqb d slash) eqn:Hcd.
    + rewrite IH3. discriminate.
    + rewrite !starts_slash_cons. intros H; exact H.
Qed.

Lemma closer_not_slash (c : char) :
  is_closer c = true -> char_eqb slash c = false.
Proof.
  intros H. destruct (char_eqb slash c) eqn:E; [|reflexivity].
  unfold char_eqb in E. apply N.eqb_eq in E. subst c. discriminate H.
Qed.

Lemma sub_commas_copy (n : nat) (c : char) (t : str) :
  sub_commas (S n) (c :: t) = c :: sub_commas n t.
Proof. reflexivity. Qed.

Lemma sub_commas_starts_slash (text : str) :
  forall group1,
    starts_with [slash] (sub_commas group1 text) = starts_with [slash] text.
Proof.
  destruct text as [|c t]; intros group1; [destruct group1; reflexivity|].
  destruct group1 as [|n]; [|rewrite sub_commas_copy, !starts_slash_cons;
                              reflexivity].
  cbn [sub_commas]. destruct (char_eqb c comma) eqn:Hc;
    [|rewrite !starts_slash_cons; reflexivity].
  destruct (match_closer t) as [m|] eqn:Hm;
    [|rewrite !starts_slash_cons; reflexivity].
  unfold char_eqb in Hc. apply N.eqb_eq in Hc. subst c.
  rewrite (starts_slash_cons comma).
  destruct t as [|d t']; [discriminate|]. cbn [match_closer] in Hm.
  destruct (is_space d) eqn:Hsp.
  - destruct (match_closer t') as [m'|]; [|discriminate].
    injection Hm as <-. rewrite sub_commas_copy, starts_slash_cons.
    apply space_not_slash, Hsp.
  - destruct (is_closer d) eqn:Hcl; [|discriminate].
    injection Hm as <-. rewrite sub_commas_copy, starts_slash_cons.
    apply closer_not_slash, Hcl.
Qed.

Lemma sub_commas_no_comment (text : str) :
  has_comment text = false ->
  forall group1, has_comment (sub_commas group1 text) = false.
Proof.
  induction text as [|c t IH]; intros H group1; [destruct group1; reflexivity|].
  rewrite has_comment_cons in H. apply orb_false_iff in H as [Hc Ht].
  assert (Hcopy : forall n, has_comment (c :: sub_commas n t) = false).
  { intros n. rewrite has_comment_cons, sub_commas_starts_slash, Hc.
    apply IH, Ht. }
  destruct group1 as [|n]; [|rewrite sub_commas_copy; apply Hcopy].
  cbn [sub_commas]. destruct (char_eqb c comma); [|apply Hcopy].
  destruct (match_closer t); [apply IH, Ht|apply Hcopy].
Qed.

Lemma clean_jsonc_no_comment (text : str) :
  has_comment (clean_jsonc text) = false.
Proof.
  unfold clean_jsonc. apply sub_commas_no_comment.
  apply sub_comments_no_comment.
Qed.

(** X9: the text handed to [json.loads] has no two slashes in a row: no
    line comment survives, and neither does a [//] inside a string. *)
Theorem cleaned_text_has_no_comment (text : str) :
  has_comment (clean_jsonc text) = false.
Proof. apply clean_jsonc_no_comment. Qed.

Lemma sub_comments_identity (text : str) :
  has_comment text = false -> sub_comments false text = text.
Proof.
  induction text as [|c t IH]; [reflexivity|].
  rewrite has_comment_cons. intros H. apply orb_false_iff in H as [Hc Ht].
  destruct t as [|d t']; [reflexivity|].
  rewrite sub_comments_outside, (IH Ht).
  rewrite starts_slash_cons in Hc.
  rewrite (char_eqb_sym c), (char_eqb_sym d), Hc. reflexivity.
Qed.

Lemma remove_trailing_commas_length (text : str) :
  (List.length (remove_trailing_commas text) <= List.length text)%nat
  /\ (has_trailing_comma text = true ->
      (List.length (remove_trailing_commas text) < List.length text)%nat).
Proof.
  induction text as [|c t [IHle IHlt]]; [split; [simpl; lia|discriminate]|].
  cbn [remove_trailing_commas has_trailing_comma].
  destruct (char_eqb c comma && closes t); cbn [List.length orb].
  - split; [lia|intros _; lia].
  - split; [lia|]. intros H. specialize (IHlt H). lia.
Qed.

Lemma remove_trailing_commas_identity (text : str) :
  has_trailing_comma text = false -> remove_trailing_commas text = text.
Proof.
  induction text as [|c t IH]; [reflexivity|].
  cbn [remove_trailing_commas has_trailing_comma].
  intros H. apply orb_false_iff in H as [Hc Ht].
  rewrite Hc, (IH Ht). reflexivity.
Qed.

(** X10: the cleaning leaves a text as it is exactly when the text has
    no two slashes in a row and no comma before a closing brace or
    bracket; [parse_jsonc] then parses the file as it stands. *)
Theorem cleaning_changes_only_jsonc (text : str) :
  (clean_jsonc text = text
   <-> has_comment text = false /\ has_trailing_comma text = false)
  /\ forall (path : Type) (fs : files path) (p : path),
      fs p = Some text ->
      has_comment text = false -> has_trailing_comma text = false ->
      parse_jsonc path fs p = json_loads text.
Proof.
  assert (Hid : has_comment text = false -> has_trailing_comma text = false ->
                clean_jsonc text = text).
  { intros Hc Ht. unfold clean_jsonc.
    rewrite (sub_comments_identity _ Hc), (proj1 (sub_commas_scan _)).
    apply remove_trailing_commas_identity, Ht. }
  split.
  - split; [|intros [Hc Ht]; apply Hid; assumption].
    intros H.
    assert (Hc : has_comment text = false)
      by (rewrite <- H; apply clean_jsonc_no_comment).
    split; [exact Hc|].
    destruct (has_trailing_comma text) eqn:Ht; [|reflexivity].
    unfold clean_jsonc in H.
    rewrite (sub_comments_identity _ Hc), (proj1 (sub_commas_scan _)) in H.
    pose proof (proj2 (remove_trailing_commas_length text) Ht) as Hlt.
    rewrite H in Hlt. lia.
  - intros path fs p Hfs Hc Ht. unfold parse_jsonc.
    rewrite Hfs, (Hid Hc Ht). reflexivity.
Qed.

Lemma cleaning_changes_only_jsonc_witness :
  parse_jsonc str (zed_dir None None (Some editor_settings_text))
    (u "/z/settings.json")
  = json_loads editor_settings_text.
Proof.
  apply (proj2 (cleaning_changes_only_jsonc editor_settings_text) str
           (zed_dir None None (Some editor_settings_text))
           (u "/z/settings.json")); reflexivity.
Defined.

(** ** [parse_jsonc]: its documents *)

(** X12: in a document [parse_jsonc] returns no mapping has a key twice,
    at any depth: a key the file repeats is there once. *)
Theorem parsed_document_is_well_formed
  (path : Type) (fs : files path) (p : path) (v : json) :
  parse_jsonc path fs p = Ok v -> wf_json v = true.
Proof.
  unfold parse_jsonc. destruct (fs p) as [text|].
  - apply json_loads_wf.
  - intros H. injection H as <-. reflexivity.
Qed.

Lemma parsed_document_is_well_formed_witness :
  wf_json (JObj [(u "editor", JObj [(u "fontSize", JInt 14)])]) = true.
Proof.
  apply (parsed_document_is_well_formed str
           (zed_dir (Some editor_base_text) None None)
           (u "/z/settings.base.jsonc")).
  reflexivity.
Defined.

(** ** The escaper: what the output is good for *)

Lemma rstrip_app_spaces (line ws : str) :
  forallb is_space ws = true -> rstrip (line ++ ws) = rstrip line.
Proof.
  revert line. induction ws as [|c ws IH]; intros line H.
  - rewrite app_nil_r. reflexivity.
  - cbn [forallb] in H. apply andb_true_iff in H as [Hc Hws].
    change (line ++ c :: ws) with (line ++ [c] ++ ws).
    rewrite app_assoc, (IH _ Hws). apply rstrip_app_space, Hc.
Qed.

(** X13: whitespace at the end of a line, of any kind and length, does
    not show in the output; a line of whitespace alone gives an empty
    line. *)
Theorem trailing_whitespace_is_dropped (line ws : str) :
  forallb is_space ws = true ->
  escape_line (line ++ ws) = escape_line line /\ escape_line ws = [].
Proof.
  intros H. unfold escape_line. split.
  - rewrite (rstrip_app_spaces _ _ H). reflexivity.
  - rewrite <- (app_nil_l ws), (rstrip_app_spaces _ _ H). reflexivity.
Qed.

Lemma trailing_whitespace_is_dropped_witness :
  escape_line (u "a/b" ++ [32; 9; 160; 13; 10]%N) = escape_line (u "a/b")
  /\ escape_line [32; 9; 160; 13; 10]%N = [].
Proof.
  apply trailing_whitespace_is_dropped. reflexivity.
Defined.

(** X14: two lines have the same output exactly when they are the same
    up to trailing whitespace: the output tells every stripped line from
    every other. *)
Theorem same_output_iff_same_stripped_line (a b : str) :
  escape_line a = escape_line b <-> rstrip a = rstrip b.
Proof.
  split; intros H.
  - assert (Hl : re_literal (escape_line a) = re_literal (escape_line b))
      by (rewrite H; reflexivity).
    rewrite !escape_line_chars, !re_literal_escaped in Hl.
    injection Hl as Hl. exact Hl.
  - unfold escape_line. rewrite H. reflexivity.
Qed.

Lemma delimiter_safe_escaped (s : str) :
  delimiter_safe (flat_map escape_char s) = true.
Proof.
  induction s as [|c s IH]; [reflexivity|].
  change (flat_map escape_char (c :: s))
    with (escape_char c ++ flat_map escape_char s).
  unfold escape_char at 1.
  destruct (char_eqb c slash) eqn:Hslash; [exact IH|].
  cbn [re_escape]. destruct (is_special c) eqn:Hs; cbn [app]; [exact IH|].
  destruct (not_special_not_operator _ Hs) as [Hb _].
  cbn [delimiter_safe]. rewrite Hb, Hslash. exact IH.
Qed.

(** X15: in the output every slash has its backslash and no backslash is
    left alone at the end: between the slashes of a substitution command
    the output never ends the field it stands in. *)
Theorem output_is_delimiter_safe (line : str) :
  delimiter_safe (escape_line line) = true.
Proof. rewrite escape_line_chars. apply delimiter_safe_escaped. Qed.

Lemma escape_char_length (c : char) :
  List.length (escape_char c) = if is_escaped c then 2%nat else 1%nat.
Proof.
  unfold escape_char, is_escaped.
  destruct (char_eqb c slash); [rewrite orb_true_r; reflexivity|].
  rewrite orb_false_r. cbn [re_escape].
  destruct (is_special c); reflexivity.
Qed.

Lemma escaped_length (s : str) :
  List.length (flat_map escape_char s)
  = (List.length s + List.length (filter is_escaped s))%nat.
Proof.
  induction s as [|c s IH]; [reflexivity|].
  change (flat_map escape_char (c :: s))
    with (escape_char c ++ flat_map escape_char s).
  rewrite length_app, escape_char_length, IH. cbn [filter List.length].
  destruct (is_escaped c); cbn [List.length]; lia.
Qed.

Lemma escaped_plain (s : str) :
  forallb (fun c => negb (is_escaped c)) s = true ->
  flat_map escape_char s = s.
Proof.
  induction s as [|c s IH]; [reflexivity|].
  cbn [forallb]. intros H. apply andb_true_iff in H as [Hc Hs].
  change (flat_map escape_char (c :: s))
    with (escape_char c ++ flat_map escape_char s).
  rewrite (IH Hs). unfold escape_char, is_escaped in *.
  apply negb_true_iff, orb_false_iff in Hc as [Hsp Hsl].
  rewrite Hsl. cbn [re_escape]. rewrite Hsp. reflexivity.
Qed.

(** X16: the output is longer than the stripped line by one backslash
    for each of its special characters and slashes; a stripped line that
    has none is written as it is. *)
Theorem output_length_and_plain_lines (line : str) :
  List.length (escape_line line)
  = (List.length (rstrip line)
     + List.length (filter is_escaped (rstrip line)))%nat
  /\ (forallb (fun c => negb (is_escaped c)) (rstrip line) = true ->
      escape_line line = rstrip line).
Proof.
  rewrite escape_line_chars. split.
  - apply escaped_length.
  - apply escaped_plain.
Qed.

Lemma output_length_and_plain_lines_witness :
  escape_line (u "plain_text42" ++ [32; 10]%N)
  = rstrip (u "plain_text42" ++ [32; 10]%N).
Proof.
  apply (proj2 (output_length_and_plain_lines
                  (u "plain_text42" ++ [32; 10]%N))).
  reflexivity.
Defined.

Lemma rstrip_count_le (c : char) (s : str) :
  (count_char c (rstrip s) <= count_char c s)%nat.
Proof.
  induction s as [|d s IH]; [reflexivity|].
  rewrite count_char_cons. cbn [rstrip].
  destruct (rstrip s) as [|x r] eqn:Hr.
  - destruct (is_space d).
    + change (count_char c []) with 0%nat. lia.
    + rewrite count_char_cons. change (count_char c []) with 0%nat. lia.
  - rewrite count_char_cons. lia.
Qed.

Lemma escape_char_count_newline (c : char) :
  count_char newline (escape_char c) = count_char newline [c].
Proof.
  unfold escape_char. destruct (char_eqb c slash) eqn:E.
  - unfold char_eqb in E. apply N.eqb_eq in E. subst c. reflexivity.
  - cbn [re_escape]. destruct (is_special c); [|reflexivity].
    rewrite count_char_cons. reflexivity.
Qed.

Lemma escaped_count_newline (s : str) :
  count_char newline (flat_map escape_char s) = count_char newline s.
Proof.
  induction s as [|c s IH]; [reflexivity|].
  change (flat_map escape_char (c :: s))
    with (escape_char c ++ flat_map escape_char s).
  rewrite count_char_app, escape_char_count_newline, IH.
  rewrite (count_char_cons newline c s), (count_char_cons newline c []).
  unfold count_char at 1. simpl. lia.
Qed.

Lemma stream_line_output (line : str) :
  stream_line line -> count_char newline (escape_line line) = 0%nat.
Proof.
  intros [body [Hbody Hline]].
  rewrite escape_line_chars, escaped_count_newline.
  assert (Hr : rstrip line = rstrip body).
  { destruct Hline as [->| ->]; [reflexivity|].
    apply rstrip_app_space. reflexivity. }
  rewrite Hr. pose proof (rstrip_count_le newline body). lia.
Qed.

(** X17: for lines as a text stream yields them, the output has one line
    for each line read: as many newlines as there are lines, each one
    written by [print]. *)
Theorem one_output_line_per_input_line (lines : list str) :
  Forall stream_line lines ->
  count_char newline (escaper lines) = List.length lines.
Proof.
  induction 1 as [|line lines Hline _ IH]; [reflexivity|].
  cbn [escaper List.length].
  rewrite !count_char_app, (stream_line_output _ Hline), IH. reflexivity.
Qed.

Lemma one_output_line_per_input_line_witness :
  count_char newline
    (escaper [u "a.b*c " ++ [newline]; [newline]; u "s/x/y/"])
  = 3%nat.
Proof.
  apply (one_output_line_per_input_line
           [u "a.b*c " ++ [newline]; [newline]; u "s/x/y/"]).
  repeat constructor.
  - exists (u "a.b*c "). split; [reflexivity|right; reflexivity].
  - exists []. split; [reflexivity|right; reflexivity].
  - exists (u "s/x/y/"). split; [reflexivity|left; reflexivity].
Defined.

(** ** [main]: how a run ends *)

(** X18: a run that exits by itself exits with status 1 when
    [settings.json] is missing, with an error line on stderr and nothing
    on stdout, and with status 0 when it is there, with whole lines on
    stdout and nothing on stderr; a run that an exception ends has
    printed nothing.  No run writes to both streams. *)
Theorem main_never_writes_to_both_streams
  (path : Type) (joinpath : path -> str -> path) (path_str : path -> str)
  (float_repr : pyfloat -> str) (fs : files path) (script_dir : path) :
  match main path joinpath path_str float_repr fs script_dir with
  | Exit status out err =>
      (status = 1 /\ out = [] /\ err <> []
       /\ fs (joinpath script_dir (u "settings.json")) = None)
      \/ (status = 0 /\ err = []
          /\ (exists text, out = text ++ [newline])
          /\ fs (joinpath script_dir (u "settings.json")) <> None)
  | Uncaught e out =>
      out = [] /\ fs (joinpath script_dir (u "settings.json")) <> None
  end.
Proof.
  unfold main.
  destruct (fs (joinpath script_dir (u "settings.json"))) as [text|] eqn:Hfs.
  - destruct (parse_jsonc path fs (joinpath script_dir (u "settings.base.jsonc")))
      as [base|e]; cbn [bind]; [|split; [reflexivity|discriminate]].
    destruct (parse_jsonc path fs
                (joinpath script_dir (u "settings.local.jsonc")))
      as [local_settings|e]; cbn [bind]; [|split; [reflexivity|discriminate]].
    destruct (parse_jsonc path fs (joinpath script_dir (u "settings.json")))
      as [settings|e]; cbn [bind]; [|split; [reflexivity|discriminate]].
    destruct (find_orphaned settings base local_settings) as [orphaned|e];
      cbn [bind]; [|split; [reflexivity|discriminate]].
    right. repeat split; [|discriminate]. unfold print.
    destruct (truthy orphaned); eexists; reflexivity.
  - left. repeat split. unfold print. intros H.
    apply app_eq_nil in H as [_ H]. discriminate H.
Qed.

(** X19: a [settings.json] that parses to something that is not a
    mapping (a list, a number, a string) is reported as having no
    orphaned settings. *)
Theorem settings_that_is_no_mapping_reports_nothing
  (path : Type) (joinpath : path -> str -> path) (path_str : path -> str)
  (float_repr : pyfloat -> str) (fs : files path) (script_dir : path)
  (text : str) (base local_settings settings : json) :
  fs (joinpath script_dir (u "settings.json")) = Some text ->
  parse_jsonc path fs (joinpath script_dir (u "settings.base.jsonc")) = Ok base ->
  parse_jsonc path fs (joinpath script_dir (u "settings.local.jsonc"))
  = Ok local_settings ->
  parse_jsonc path fs (joinpath script_dir (u "settings.json")) = Ok settings ->
  is_mapping settings = false ->
  main path joinpath path_str float_repr fs script_dir
  = Exit 0 (u "No orphaned settings found." ++ [newline]) [].
Proof.
  intros Hfs Hb Hl Hs Hm. unfold main.
  rewrite Hfs, Hb, Hl, Hs. cbn [bind].
  replace (find_orphaned settings base local_settings) with (@Ok dict [])
    by (destruct settings; try reflexivity; discriminate).
  reflexivity.
Qed.

Lemma settings_that_is_no_mapping_reports_nothing_witness :
  main str posix_join (fun p => p) demo_float_repr
    (zed_dir (Some editor_base_text) None (Some (u "[1, 2] // a list")))
    (u "/z")
  = Exit 0 (u "No orphaned settings found." ++ [newline]) [].
Proof.
  apply (settings_that_is_no_mapping_reports_nothing str posix_join
           (fun p => p) demo_float_repr
           (zed_dir (Some editor_base_text) None (Some (u "[1, 2] // a list")))
           (u "/z") (u "[1, 2] // a list")
           (JObj [(u "editor", JObj [(u "fontSize", JInt 14)])])
           (JObj []) (JArr [JInt 1; JInt 2])); reflexivity.
Defined.

Lemma forallb_unexplained_empty (items : dict) :
  forallb (fun kv => negb (explained (fst kv) (JObj []) (JObj []))) items
  = true.
Proof. induction items as [|[k v] items IH]; [reflexivity|exact IH]. Qed.

(** X20: with neither [settings.base.jsonc] nor [settings.local.jsonc]
    in the directory, a run on a [settings.json] that holds a mapping
    with at least one key prints that whole mapping. *)
Theorem no_source_file_prints_all_settings
  (path : Type) (joinpath : path -> str -> path) (path_str : path -> str)
  (float_repr : pyfloat -> str) (fs : files path) (script_dir : path)
  (text : str) (items : dict) :
  fs (joinpath script_dir (u "settings.json")) = Some text ->
  fs (joinpath script_dir (u "settings.base.jsonc")) = None ->
  fs (joinpath script_dir (u "settings.local.jsonc")) = None ->
  parse_jsonc path fs (joinpath script_dir (u "settings.json"))
  = Ok (JObj items) ->
  items <> [] ->
  main path joinpath path_str float_repr fs script_dir
  = Exit 0 (json_dumps float_repr (JObj items) ++ [newline]) [].
Proof.
  intros Hfs Hb Hl Hs Hne. unfold main.
  rewrite Hfs. unfold parse_jsonc at 1 2. rewrite Hb, Hl, Hs. cbn [bind].
  pose proof Hs as Hwf. unfold parse_jsonc in Hwf. rewrite Hfs in Hwf.
  apply json_loads_wf, wf_json_obj in Hwf as [Hd _].
  rewrite (find_orphaned_entries _ _ _ Hd),
    (entries_unexplained _ _ _ (forallb_unexplained_empty items)).
  cbn [bind]. destruct items; [contradiction|reflexivity].
Qed.

Lemma no_source_file_prints_all_settings_witness :
  main str posix_join (fun p => p) demo_float_repr
    (zed_dir None None (Some editor_settings_text)) (u "/z")
  = Exit 0
      (json_dumps demo_float_repr
         (JObj [(u "editor",
                 JObj [(u "fontSize", JInt 14); (u "tabSize", JInt 2)])])
         ++ [newline]) [].
Proof.
  apply (no_source_file_prints_all_settings str posix_join (fun p => p)
           demo_float_repr (zed_dir None None (Some editor_settings_text))
           (u "/z") editor_settings_text);
    try reflexivity; discriminate.
Defined.

Lemma py_eq_arr_cons (x y : json) (xs ys : list json) :
  py_eq (JArr (x :: xs)) (JArr (y :: ys))
  = py_eq x y && py_eq (JArr xs) (JArr ys).
Proof. reflexivity. Qed.

(** Every element of a list has an equal one in a list equal to it. *)
Lemma py_eq_arr_matched (xs : list json) :
  forall ys full,
    py_eq (JArr xs) (JArr ys) = true ->
    incl ys full ->
    unmatched xs full = [].
Proof.
  induction xs as [|x xs IH]; intros ys full H Hincl; [reflexivity|].
  destruct ys as [|y ys]; [discriminate|].
  rewrite py_eq_arr_cons in H. apply andb_true_iff in H as [Hxy Hrest].
  unfold unmatched. cbn [filter].
  replace (existsb (py_eq x) full) with true.
  - cbn [negb]. apply (IH ys); [exact Hrest|].
    intros z Hz. apply Hincl. right. exact Hz.
  - symmetry. apply existsb_exists. exists y.
    split; [apply Hincl; left; reflexivity|exact Hxy].
Qed.

(** Every item of a dict has, in a dict equal to it, an equal value under
    its key. *)
Lemma py_eq_obj_items (d1 d2 : dict) :
  py_eq (JObj d1) (JObj d2) = true ->
  forall k v, In (k, v) d1 ->
              exists w, dict_get k d2 = Some w /\ py_eq v w = true.
Proof.
  intros H. cbn [py_eq] in H. apply andb_true_iff in H as [_ H].
  induction d1 as [|[k0 v0] d1 IH]; intros k v Hin; [contradiction|].
  apply andb_true_iff in H as [H0 Hrest].
  destruct Hin as [Heq|Hin].
  - injection Heq as <- <-.
    destruct (dict_get k0 d2) as [w|]; [|discriminate].
    exists w. split; [reflexivity|exact H0].
  - apply IH; assumption.
Qed.

(** The diff against a [base] equal to [settings], with an empty [local],
    is empty. *)
Lemma equal_base_diff (settings : json) :
  forall base,
    py_eq settings base = true ->
    find_orphaned settings base (JObj []) = Ok [].
Proof.
  induction settings as [| b | n | f | t | elems IH | items IH]
    using json_induction; intros base Heq; try reflexivity.
  destruct base as [| | | | | |items']; try discriminate.
  rewrite find_orphaned_loop.
  pose proof (py_eq_obj_items _ _ Heq) as Hitems. clear Heq.
  assert (Hsub : incl items items) by apply incl_refl.
  revert Hsub. generalize items at 1 3 as part.
  induction part as [|[k v] part IHp]; intros Hsub; [reflexivity|].
  assert (Hin : In (k, v) items) by (apply Hsub; left; reflexivity).
  destruct (Hitems k v Hin) as [w [Hget Hvw]].
  rewrite Forall_forall in IH. specialize (IH _ Hin). cbn [snd] in IH.
  rewrite orphan_loop_step.
  assert (He : entry (JObj items') (JObj []) k v = Ok None).
  { unfold entry, key_in, dict_mem, get_or. rewrite Hget.
    cbn [negb andb dict_get].
    destruct v as [| | | | | velems | vitems]; try reflexivity.
    - destruct w as [| | | | |welems|]; try discriminate.
      rewrite not_in_list, (py_eq_arr_matched _ _ _ Hvw (incl_refl _)).
      reflexivity.
    - rewrite (IH _ Hvw). reflexivity. }
  rewrite He. cbn [bind]. apply IHp.
  intros kv Hkv. apply Hsub. right. exact Hkv.
Qed.

(** X21: when [settings.base.jsonc] parses to a document equal to the
    one of [settings.json] (as [==] has it: the order of the keys and the
    way a number is written do not count) and there is no
    [settings.local.jsonc], the run reports no orphaned settings. *)
Theorem base_equal_to_settings_reports_nothing
  (path : Type) (joinpath : path -> str -> path) (path_str : path -> str)
  (float_repr : pyfloat -> str) (fs : files path) (script_dir : path)
  (text : str) (base settings : json) :
  fs (joinpath script_dir (u "settings.json")) = Some text ->
  fs (joinpath script_dir (u "settings.local.jsonc")) = None ->
  parse_jsonc path fs (joinpath script_dir (u "settings.base.jsonc"))
  = Ok base ->
  parse_jsonc path fs (joinpath script_dir (u "settings.json")) = Ok settings ->
  py_eq settings base = true ->
  main path joinpath path_str float_repr fs script_dir
  = Exit 0 (u "No orphaned settings found." ++ [newline]) [].
Proof.
  intros Hfs Hl Hb Hs Heq. unfold main.
  rewrite Hfs, Hb. unfold parse_jsonc at 1. rewrite Hl, Hs. cbn [bind].
  rewrite (equal_base_diff _ _ Heq). reflexivity.
Qed.

Lemma base_equal_to_settings_reports_nothing_witness :
  main str posix_join (fun p => p) demo_float_repr
    (zed_dir (Some equal_base_text) None (Some equal_settings_text)) (u "/z")
  = Exit 0 (u "No orphaned settings found." ++ [newline]) [].
Proof.
  apply (base_equal_to_settings_reports_nothing str posix_join (fun p => p)
           demo_float_repr
           (zed_dir (Some equal_base_text) None (Some equal_settings_text))
           (u "/z") equal_settings_text
           (JObj [(u "b", JArr [JFloat (FFin false 4503599627370496 (-52));
                                JInt 1]);
                  (u "a", JInt 2)])
           (JObj [(u "a", JFloat (FFin false 4503599627370496 (-51)));
                  (u "b", JArr [JInt 1; JBool true])]));
    reflexivity.
Defined.

(** ** [find_orphaned]: the expected sequence counts as a set *)

(** X22: the elements reported for a sequence depend on which elements
    the expected sequence has, not on their order nor on how often each
    occurs. *)
Theorem expected_sequence_counts_as_a_set (value expected expected' : list json) :
  (forall x, In x expected <-> In x expected') ->
  not_in value (JArr expected) = not_in value (JArr expected').
Proof.
  intros Hsame. rewrite !not_in_list. f_equal.
  unfold unmatched. apply filter_ext. intros elem. f_equal.
  destruct (existsb (py_eq elem) expected) eqn:E.
  - apply existsb_exists in E as [x [Hin Hx]].
    symmetry. apply existsb_exists. exists x. split; [apply Hsame, Hin|exact Hx].
  - destruct (existsb (py_eq elem) expected') eqn:E'; [|reflexivity].
    apply existsb_exists in E' as [x [Hin Hx]].
    assert (Ht : existsb (py_eq elem) expected = true)
      by (apply existsb_exists; exists x; split; [apply Hsame, Hin|exact Hx]).
    congruence.
Qed.

Lemma expected_sequence_counts_as_a_set_witness :
  not_in [JStr (u "a"); JStr (u "c"); JInt 1]
    (JArr [JStr (u "a"); JStr (u "b")])
  = not_in [JStr (u "a"); JStr (u "c"); JInt 1]
      (JArr [JStr (u "b"); JStr (u "a"); JStr (u "b")]).
Proof.
  apply expected_sequence_counts_as_a_set. intros x. simpl. tauto.
Defined.
